(** * dcommute: route-time projection and stop extraction

    A shallow embedding of two scripts of the repository:

    - [bus_timetable_test.py]: [BusTimetableAnalyzer.predict_route_times]
      with its helpers [get_travel_time], [parse_time], [time_to_minutes]
      and [minutes_to_time_str];
    - [extract_stops.py]: [extract_stops_from_xml].

    Conventions of the embedding.
    - The projection is embedded twice.  [Timetable] reads Python's numbers
      as exact rationals ([Q]); it carries the properties of the control
      flow, which do not depend on how a sum is rounded.  [Timetable64]
      computes as the interpreter does, in IEEE 754 binary64 with
      round-to-nearest-even and with the non-finite values a response can
      hold; it carries the properties of the numbers a row shows.
    - Python strings are [string]s of ASCII characters.
    - A raised exception is the left injection of a sum; the Google client
      and the clock are an explicit world that the calls thread along. *)

From Stdlib Require Import ZArith QArith Qround Qminmax Qpower Lia Lqa Sorted.
From Stdlib Require Import Decimal DecimalString DecimalN Ascii String.
From stdpp Require Import base option list gmap strings.

#[local] Open Scope string_scope.
#[local] Open Scope Z_scope.

(** ** Exceptions *)

Inductive exn : Type :=
| IndexError
| ValueError
| AttributeError
| SyntaxError
| OverflowError.

Abbreviation result := (sum exn).

#[global] Instance result_ret : MRet result := fun A x => inr x.
#[global] Instance result_bind : MBind result :=
  fun A B f m => match m with inl e => inl e | inr x => f x end.

(** [l[i]] for a non-negative index. *)
Definition getitem {A : Type} (l : list A) (i : nat) : result A :=
  match l !! i with
  | Some x => inr x
  | None => inl IndexError
  end.

(** [for i in idx: st = body(i, st)], stopping at the first exception. *)
Fixpoint for_each {S : Type} (body : nat -> S -> result S)
    (idx : list nat) (st : S) : result S :=
  match idx with
  | [] => inr st
  | i :: rest => st' ← body i st; for_each body rest st'
  end.

(** [range(a, b)] *)
Definition py_range (a b : nat) : list nat := seq a (b - a).

(** ** Python numbers *)

Module Py.

(** [max(a, b)]: the second argument wins only when it is strictly larger. *)
Definition max (a b : Q) : Q := if Qlt_le_dec a b then b else a.

(** [a // b] *)
Definition floordiv (a b : Q) : Q := inject_Z (Qfloor (a / b)).

(** [a % b] (the sign follows the divisor) *)
Definition mod_ (a b : Q) : Q := a - b * inject_Z (Qfloor (a / b)).

(** [int(a)]: truncation towards zero *)
Definition int (a : Q) : Z := if Qlt_le_dec a 0 then Qceiling a else Qfloor a.

(** [round(a, 1)]: to one decimal, ties to the even neighbour *)
Definition round1 (a : Q) : Q :=
  let t := (a * 10)%Q in
  let n := Qfloor t in
  let r := (t - inject_Z n)%Q in
  let m := if Qlt_le_dec r (1 # 2) then n
           else if Qlt_le_dec (1 # 2) r then n + 1
           else if Z.even n then n else n + 1 in
  (inject_Z m / 10)%Q.

(** [str(n)] for [n >= 0] *)
Definition digits (n : Z) : string := NilZero.string_of_uint (N.to_uint (Z.to_N n)).

(** [f"{n:02d}"] *)
Definition format_02d (n : Z) : string :=
  if n <? 0 then String "-" (digits (- n))
  else let s := digits n in
       if (String.length s <? 2)%nat then String "0" s else s.

End Py.

(** ** [bus_timetable_test.py] *)

Module Timetable.

(** [datetime.time] restricted to the fields the script reads. *)
Record time : Type := { hour : Z; minute : Z }.

(** The part of a string before its first colon, and the part after. *)
Fixpoint split_colon (s : string) : option (string * string) :=
  match s with
  | EmptyString => None
  | String c r =>
      if Ascii.eqb c ":" then Some (EmptyString, r)
      else match split_colon r with
           | Some (a, b) => Some (String c a, b)
           | None => None
           end
  end.

(** A non-empty run of decimal digits, as a number. *)
Definition read_digits (s : string) : option Z :=
  match NilZero.uint_of_string s with
  | Some d => Some (Z.of_N (N.of_uint d))
  | None => None
  end.

(** [datetime.strptime(time_str, "%H:%M").time()]: [%H] is one or two digits
    up to 23, [%M] one or two digits up to 59, and the whole string must be
    consumed; anything else raises [ValueError]. *)
Definition parse_time (time_str : string) : result time :=
  match split_colon time_str with
  | None => inl ValueError
  | Some (h, m) =>
      match read_digits h, read_digits m with
      | Some hv, Some mv =>
          if (String.length h <=? 2)%nat && (String.length m <=? 2)%nat
             && (hv <=? 23) && (mv <=? 59)
          then inr {| hour := hv; minute := mv |}
          else inl ValueError
      | _, _ => inl ValueError
      end
  end.

Definition time_to_minutes (time_obj : time) : Z :=
  hour time_obj * 60 + minute time_obj.

Definition minutes_to_time_str (minutes : Q) : string :=
  let hours := Py.int (Py.floordiv minutes 60) in
  let mins := Py.int (Py.mod_ minutes 60) in
  Py.format_02d hours +:+ ":" +:+ Py.format_02d mins.

(** Reading a rendered ["H...H:MM"] back as minutes since midnight: the
    inverse of the rendering, with no bound on the hours.  It is used to
    state what a row shows; the script itself never calls it. *)
Definition clock_minutes (s : string) : option Z :=
  match split_colon s with
  | Some (h, m) =>
      match read_digits h, read_digits m with
      | Some hv, Some mv => Some (hv * 60 + mv)
      | _, _ => None
      end
  | None => None
  end.

(** *** The directions service *)

(** What the script reads of one leg and one route of the response:
    [route['legs'][k]['duration_in_traffic']['value']], in seconds.  A key
    that is missing (or holds no number) is [None]. *)
Record leg : Type := { duration_in_traffic : option Q }.
Record route : Type := { legs : list leg }.

Inductive response : Type :=
| Raised
| Returned (routes : list route).

(** A cell of the results table: a number or a string. *)
Inductive cell : Type :=
| Num (q : Q)
| Str (s : string).

(** One dictionary appended to [results]. *)
Record row : Type := {
  Stop : string;
  Timetable : string;
  Extra_Traffic : cell;
  Predicted_Arrival : string
}.

Section Analyzer.

(** The world outside the script: the clock and the remote service. *)
Variable World : Type.
(** [self.gmaps.directions(origin, destination, mode="driving",
    departure_time=datetime.now(), traffic_model="best_guess")] *)
Variable directions : World -> string -> string -> response * World.
(** [time.sleep(0.2)] *)
Variable sleep : World -> World.

(** The analyzer's client: the world, and the requests sent so far. *)
Record client : Type := {
  world : World;
  requests : list (string * string)
}.

Definition get_travel_time (c : client) (origin destination : string)
    : option Q * client :=
  let (resp, w) := directions (world c) origin destination in
  let c' := {| world := w; requests := requests c ++ [(origin, destination)] |} in
  match resp with
  | Raised => (None, c')
  | Returned [] => (None, c')
  | Returned (r :: _) =>
      match legs r with
      | [] => (None, c')
      | l :: _ =>
          match duration_in_traffic l with
          | None => (None, c')
          | Some duration => (Some (duration / 60)%Q, c')
          end
      end
  end.

(** [actual_arrival] of one iteration, from [last_used_time], the looked-up
    [travel_time] and [scheduled_time_minutes]. *)
Definition actual_arrival (last_used_time travel_time : Q)
    (scheduled_time_minutes : Z) : Q :=
  Py.max (last_used_time + travel_time)%Q (inject_Z scheduled_time_minutes).

(** [extra_traffic] of one iteration, before rounding. *)
Definition extra_traffic (last_used_time travel_time : Q)
    (scheduled_time_minutes : Z) (last_scheduled_time : option Z) : Q :=
  match last_scheduled_time with
  | Some lst =>
      let scheduled_travel := scheduled_time_minutes - lst in
      let actual_travel :=
        (actual_arrival last_used_time travel_time scheduled_time_minutes
         - last_used_time)%Q in
      Py.max 0 (actual_travel - inject_Z scheduled_travel)
  | None => 0%Q
  end.

(** The variables of [predict_route_times] that live across iterations. *)
Record loop_state : Type := {
  results : list row;
  last_used_stop : string;
  last_used_time : Q;
  gmaps : client
}.

(** The backward scan [for j in range(i-1, -1, -1)], entered with [n = i]:
    the scheduled minutes of the nearest earlier entry that is not ["x"]. *)
Fixpoint last_scheduled (timetable : list string) (n : nat) : result (option Z) :=
  match n with
  | O => inr None
  | S j =>
      t ← getitem timetable j;
      if decide (t <> "x")
      then tobj ← parse_time t; inr (Some (time_to_minutes tobj))
      else last_scheduled timetable j
  end.

(** The body of [for i in range(1, len(stops))]. *)
Definition loop_body (stops timetable : list string) (i : nat) (st : loop_state)
    : result loop_state :=
  current_stop ← getitem stops i;
  scheduled_time ← getitem timetable i;
  if decide (scheduled_time <> "x") then
    let (travel, c) := get_travel_time (gmaps st) (last_used_stop st) current_stop in
    match travel with
    | None =>
        inr {| results := results st;
               last_used_stop := last_used_stop st;
               last_used_time := last_used_time st;
               gmaps := c |}
    | Some travel_time =>
        scheduled_time_obj ← parse_time scheduled_time;
        let scheduled_time_minutes := time_to_minutes scheduled_time_obj in
        let arrival :=
          actual_arrival (last_used_time st) travel_time scheduled_time_minutes in
        last_scheduled_time ← last_scheduled timetable i;
        let extra :=
          extra_traffic (last_used_time st) travel_time scheduled_time_minutes
            last_scheduled_time in
        inr {| results := results st ++
                 [ {| Stop := current_stop;
                      Timetable := scheduled_time;
                      Extra_Traffic := Num (Py.round1 extra);
                      Predicted_Arrival := minutes_to_time_str arrival |} ];
               last_used_stop := current_stop;
               last_used_time := arrival;
               gmaps := {| world := sleep (world c); requests := requests c |} |}
    end
  else
    inr {| results := results st ++
             [ {| Stop := current_stop;
                  Timetable := "-";
                  Extra_Traffic := Str "-";
                  Predicted_Arrival := "-" |} ];
           last_used_stop := last_used_stop st;
           last_used_time := last_used_time st;
           gmaps := gmaps st |}.

(** The state on entry to the loop. *)
Definition initial_state (stops timetable : list string) (c : client)
    : result loop_state :=
  stop0 ← getitem stops 0;
  t0 ← getitem timetable 0;
  tobj ← parse_time t0;
  inr {| results := [ {| Stop := stop0;
                         Timetable := t0;
                         Extra_Traffic := Num 0;
                         Predicted_Arrival := t0 |} ];
         last_used_stop := stop0;
         last_used_time := inject_Z (time_to_minutes tobj);
         gmaps := c |}.

(** Every entry of the timetable is the marker ["x"] or a clock time. *)
Definition well_formed (timetable : list string) : Prop :=
  Forall (fun t => t = "x" \/ exists tobj, parse_time t = inr tobj) timetable.

(** The state after the iterations [i = 1 .. n]. *)
Definition run_upto (stops timetable : list string) (c : client) (n : nat)
    : result loop_state :=
  st0 ← initial_state stops timetable c;
  for_each (loop_body stops timetable) (py_range 1 (S n)) st0.

(** [predict_route_times(stops, timetable)]: the rows of the returned
    frame, and the client as the call leaves it. *)
Definition predict_route_times (stops timetable : list string) (c : client)
    : result (list row * client) :=
  st0 ← initial_state stops timetable c;
  st ← for_each (loop_body stops timetable) (py_range 1 (length stops)) st0;
  inr (results st, gmaps st).

(** Whether entry [i] is a served entry whose lookup gave no result, the
    lookup being the one the run issues when it reaches [i]. *)
Definition lookup_fails (stops timetable : list string) (c : client) (i : nat)
    : bool :=
  match i with
  | O => false
  | S n =>
      match run_upto stops timetable c n, stops !! i, timetable !! i with
      | inr st, Some s, Some t =>
          if decide (t <> "x")
          then match fst (get_travel_time (gmaps st) (last_used_stop st) s) with
               | None => true
               | Some _ => false
               end
          else false
      | _, _, _ => false
      end
  end.

(** The stop and timetable cells expected for entry [i]: none if its
    lookup fails, the timetable string (["-"] for ["x"]) otherwise. *)
Definition kept_entry (stops timetable : list string) (c : client) (i : nat)
    : option (string * string) :=
  if lookup_fails stops timetable c i then None
  else match stops !! i, timetable !! i with
       | Some s, Some t => Some (s, if decide (t <> "x") then t else "-")
       | _, _ => None
       end.

(** The stop and timetable cells expected of the output: one pair per
    entry, in order, leaving out the entries whose lookup fails. *)
Definition kept_entries (stops timetable : list string) (c : client)
    : list (string * string) :=
  omap (kept_entry stops timetable c) (seq 0 (length stops)).

End Analyzer.

(** The stop and timetable cells of a row. *)
Definition entry_cells (r : row) : string * string := (Stop r, Timetable r).

(** The stop of entry [i] if the entry is served. *)
Definition served_stop (stops timetable : list string) (i : nat) : option string :=
  match timetable !! i with
  | Some t => if decide (t <> "x") then stops !! i else None
  | None => None
  end.

(** The destinations of the lookups a call is expected to make: the stops
    of the entries after the first that are not marked ["x"], in order. *)
Definition served_after_anchor (stops timetable : list string) : list string :=
  omap (served_stop stops timetable) (seq 1 (length stops - 1)).

(** The predicted arrivals a table shows, in minutes, top to bottom; the
    rows of unserved stops show ["-"] and contribute nothing. *)
Definition shown_arrivals (rows : list row) : list Z :=
  omap (fun r => clock_minutes (Predicted_Arrival r)) rows.

(** A row of a served stop shows an arrival that reads as a clock time. *)
Definition readable (r : row) : Prop :=
  Timetable r <> "-" -> is_Some (clock_minutes (Predicted_Arrival r)).

(** The input constraint of the projection: a non-empty route whose first
    entry is served, with a timetable entry for every stop. *)
Definition input_ok (stops timetable : list string) : Prop :=
  stops <> [] /\ (length stops <= length timetable)%nat /\
  well_formed timetable /\ timetable !! 0%nat <> Some "x".

Arguments world {World} _.
Arguments requests {World} _.
Arguments results {World} _.
Arguments last_used_stop {World} _.
Arguments last_used_time {World} _.
Arguments gmaps {World} _.

End Timetable.


(** ** Binary floating point

    Python's [float] is the IEEE 754 binary64 format: 53 significant bits,
    the smallest positive value [2 ^ -1074], the largest finite value
    [(2 ^ 53 - 1) * 2 ^ 971].  A finite float is read as the rational it
    denotes; every operation is the exact operation on rationals followed by
    one rounding to the nearest float, ties to the even significand.  The
    two zeros are not told apart: the script never looks at the sign of a
    zero.

    A Python [int] of the script is a scheduled minute of the day or a
    difference of two of them; it is read as the finite value it denotes,
    which is what the interpreter converts it to when an [int] meets a
    [float].  Where the script combines two such [int]s the integer result
    and the float result are the same number, every whole number up to
    [2 ^ 53] being a float. *)

Module Binary64.

Inductive float : Type :=
| Fin (q : Q)
| Inf (negative : bool)
| NaN.

Definition pow2 (e : Z) : Q := (2 ^ e)%Q.

(** [floor (log2 q)] for a positive [q]. *)
Definition ilog2 (q : Q) : Z :=
  let d := Z.log2 (Qnum q) - Z.log2 (Zpos (Qden q)) in
  if Qle_bool (pow2 d) q then d else d - 1.

(** The integer nearest to [q], a tie going to the even one. *)
Definition half_even (q : Q) : Z :=
  let n := Qfloor q in
  match (q - inject_Z n ?= 1 # 2)%Q with
  | Lt => n
  | Gt => n + 1
  | Eq => if Z.even n then n else n + 1
  end.

(** The float nearest to a positive [q]: [q] is rounded to a multiple of
    the spacing [2 ^ e] of the floats around it, and a result beyond the
    largest finite float is infinite. *)
Definition nearest (q : Q) : float :=
  let e := Z.max (ilog2 q - 52) (-1074) in
  let m := half_even (q / pow2 e) in
  if (971 <? e) || ((e =? 971) && (2 ^ 53 <=? m)) then Inf false
  else Fin (Qred (inject_Z m * pow2 e)).

Definition neg (x : float) : float :=
  match x with
  | Fin q => Fin (- q)
  | Inf s => Inf (negb s)
  | NaN => NaN
  end.

(** The float a rational rounds to. *)
Definition rnd (q : Q) : float :=
  match (q ?= 0)%Q with
  | Eq => Fin 0
  | Gt => nearest q
  | Lt => neg (nearest (- q))
  end.

(** [x + y] *)
Definition add (x y : float) : float :=
  match x, y with
  | Fin a, Fin b => rnd (a + b)
  | Fin _, Inf s => Inf s
  | Inf s, Fin _ => Inf s
  | Inf s, Inf s' => if Bool.eqb s s' then Inf s else NaN
  | _, _ => NaN
  end.

(** [x - y] *)
Definition sub (x y : float) : float := add x (neg y).

(** [x / 60] *)
Definition div60 (x : float) : float :=
  match x with
  | Fin a => rnd (a / 60)
  | _ => x
  end.

(** [x > y]; a comparison with a NaN is false. *)
Definition gt (x y : float) : bool :=
  match x, y with
  | Fin a, Fin b => if Qlt_le_dec b a then true else false
  | Fin _, Inf s => s
  | Inf s, Fin _ => negb s
  | Inf s, Inf s' => negb s && s'
  | _, _ => false
  end.

(** [max(a, b)]: the second argument wins only when it is strictly larger. *)
Definition max (a b : float) : float := if gt b a then b else a.

(** C's [floor] *)
Definition floor (x : float) : float :=
  match x with
  | Fin q => Fin (inject_Z (Qfloor q))
  | _ => x
  end.

(** C's [fmod(a, 60)] on a finite [a]: exact, with the sign of [a]. *)
Definition fmod60 (a : Q) : Q := (a - 60 * inject_Z (Py.int (a / 60)))%Q.

Definition is_zero (x : float) : bool :=
  match x with
  | Fin q => Qeq_bool q 0
  | _ => false
  end.

(** The interpreter's [float_divmod] for the divisor 60: the pair
    [(x // 60, x % 60)].  The remainder is exact; the quotient is computed
    from it in floating point and snapped to a whole number. *)
Definition divmod60 (x : float) : float * float :=
  match x with
  | Fin a =>
      let m := fmod60 a in
      let div := div60 (sub (Fin a) (Fin m)) in
      let (m', div') :=
        if Qlt_le_dec m 0 then (add (Fin m) (Fin 60), sub div (Fin 1))
        else (Fin m, div) in
      let floordiv :=
        if is_zero div' then Fin 0
        else let f := floor div' in
             if gt (sub div' f) (Fin (1 # 2)) then add f (Fin 1) else f in
      (floordiv, m')
  | _ => (NaN, NaN)
  end.

(** [x // 60] *)
Definition floordiv60 (x : float) : float := fst (divmod60 x).

(** [x % 60] *)
Definition mod60 (x : float) : float := snd (divmod60 x).

(** [int(x)] *)
Definition int (x : float) : result Z :=
  match x with
  | Fin q => inr (Py.int q)
  | Inf _ => inl OverflowError
  | NaN => inl ValueError
  end.

(** [round(x, 1)]: the decimal with one digit after the point nearest to
    the exact value of [x], ties to the even digit, read back as a float. *)
Definition round1 (x : float) : float :=
  match x with
  | Fin q => rnd (inject_Z (half_even (q * 10)) / 10)
  | _ => x
  end.

(** The largest finite float. *)
Definition max_finite : Q := inject_Z ((2 ^ 53 - 1) * 2 ^ 971).

(** A float that is a number and not below zero. *)
Definition nonneg (x : float) : Prop :=
  match x with
  | Fin q => (0 <= q)%Q
  | Inf negative => negative = false
  | NaN => False
  end.

End Binary64.

(** ** [bus_timetable_test.py] in binary64 *)

Module Timetable64.
Import Timetable.

(** When [minutes] is an [int], a scheduled minute of the day, the
    interpreter divides integers; on such a value the float operations
    below give the same two numbers. *)
Definition minutes_to_time_str (minutes : Binary64.float) : result string :=
  hours ← Binary64.int (Binary64.floordiv60 minutes);
  mins ← Binary64.int (Binary64.mod60 minutes);
  inr (Py.format_02d hours +:+ ":" +:+ Py.format_02d mins).

(** A number of a decoded JSON response: an [int] of any size, or a
    [float], which the decoder also produces for [NaN], [Infinity] and for
    literals too large to be finite. *)
Inductive number : Type :=
| JInt (z : Z)
| JFloat (x : Binary64.float).

(** What the script reads of one leg and one route of the response:
    [route['legs'][k]['duration_in_traffic']['value']], in seconds.  A key
    that is missing (or holds no number) is [None]. *)
Record leg : Type := { duration_in_traffic : option number }.
Record route : Type := { legs : list leg }.

Inductive response : Type :=
| Raised
| Returned (routes : list route).

(** A cell of the results table: a number or a string. *)
Inductive cell : Type :=
| Num (x : Binary64.float)
| Str (s : string).

(** One dictionary appended to [results]. *)
Record row : Type := {
  Stop : string;
  Timetable : string;
  Extra_Traffic : cell;
  Predicted_Arrival : string
}.

(** [duration / 60]: the true quotient rounded once; the quotient of an
    [int] too large for a float raises. *)
Definition minutes_of (duration : number) : result Binary64.float :=
  match duration with
  | JInt z =>
      match Binary64.rnd (inject_Z z / 60) with
      | Binary64.Inf _ => inl OverflowError
      | x => inr x
      end
  | JFloat x => inr (Binary64.div60 x)
  end.

Section Analyzer.

Variable World : Type.
(** [self.gmaps.directions(origin, destination, mode="driving",
    departure_time=datetime.now(), traffic_model="best_guess")] *)
Variable directions : World -> string -> string -> response * World.
(** [time.sleep(0.2)] *)
Variable sleep : World -> World.

Definition get_travel_time (c : client World) (origin destination : string)
    : option Binary64.float * client World :=
  let (resp, w) := directions (world c) origin destination in
  let c' := {| world := w;
               requests := requests c ++ [(origin, destination)] |} in
  match resp with
  | Raised => (None, c')
  | Returned [] => (None, c')
  | Returned (r :: _) =>
      match legs r with
      | [] => (None, c')
      | l :: _ =>
          match duration_in_traffic l with
          | None => (None, c')
          | Some duration =>
              match minutes_of duration with
              | inl _ => (None, c')
              | inr travel_time => (Some travel_time, c')
              end
          end
      end
  end.

(** [actual_arrival] of one iteration, from [last_used_time], the looked-up
    [travel_time] and [scheduled_time_minutes]. *)
Definition actual_arrival (last_used_time travel_time : Binary64.float)
    (scheduled_time_minutes : Z) : Binary64.float :=
  Binary64.max (Binary64.add last_used_time travel_time)
    (Binary64.Fin (inject_Z scheduled_time_minutes)).

(** [extra_traffic] of one iteration, before rounding. *)
Definition extra_traffic (last_used_time travel_time : Binary64.float)
    (scheduled_time_minutes : Z) (last_scheduled_time : option Z)
    : Binary64.float :=
  match last_scheduled_time with
  | Some lst =>
      let scheduled_travel := scheduled_time_minutes - lst in
      let actual_travel :=
        Binary64.sub
          (actual_arrival last_used_time travel_time scheduled_time_minutes)
          last_used_time in
      Binary64.max (Binary64.Fin 0)
        (Binary64.sub actual_travel (Binary64.Fin (inject_Z scheduled_travel)))
  | None => Binary64.Fin 0
  end.

(** The variables of [predict_route_times] that live across iterations. *)
Record loop_state : Type := {
  results : list row;
  last_used_stop : string;
  last_used_time : Binary64.float;
  gmaps : client World
}.

(** The body of [for i in range(1, len(stops))].  The dictionary of a
    served stop is built before it is appended, so an arrival that cannot
    be rendered raises out of the loop. *)
Definition loop_body (stops timetable : list string) (i : nat) (st : loop_state)
    : result loop_state :=
  current_stop ← getitem stops i;
  scheduled_time ← getitem timetable i;
  if decide (scheduled_time <> "x") then
    let (travel, c) := get_travel_time (gmaps st) (last_used_stop st) current_stop in
    match travel with
    | None =>
        inr {| results := results st;
               last_used_stop := last_used_stop st;
               last_used_time := last_used_time st;
               gmaps := c |}
    | Some travel_time =>
        scheduled_time_obj ← parse_time scheduled_time;
        let scheduled_time_minutes := time_to_minutes scheduled_time_obj in
        let arrival :=
          actual_arrival (last_used_time st) travel_time scheduled_time_minutes in
        last_scheduled_time ← last_scheduled timetable i;
        let extra :=
          extra_traffic (last_used_time st) travel_time scheduled_time_minutes
            last_scheduled_time in
        predicted_arrival ← minutes_to_time_str arrival;
        inr {| results := results st ++
                 [ {| Stop := current_stop;
                      Timetable := scheduled_time;
                      Extra_Traffic := Num (Binary64.round1 extra);
                      Predicted_Arrival := predicted_arrival |} ];
               last_used_stop := current_stop;
               last_used_time := arrival;
               gmaps := {| world := sleep (world c);
                           requests := requests c |} |}
    end
  else
    inr {| results := results st ++
             [ {| Stop := current_stop;
                  Timetable := "-";
                  Extra_Traffic := Str "-";
                  Predicted_Arrival := "-" |} ];
           last_used_stop := last_used_stop st;
           last_used_time := last_used_time st;
           gmaps := gmaps st |}.

(** The state on entry to the loop. *)
Definition initial_state (stops timetable : list string) (c : client World)
    : result loop_state :=
  stop0 ← getitem stops 0;
  t0 ← getitem timetable 0;
  tobj ← parse_time t0;
  inr {| results := [ {| Stop := stop0;
                         Timetable := t0;
                         Extra_Traffic := Num (Binary64.Fin 0);
                         Predicted_Arrival := t0 |} ];
         last_used_stop := stop0;
         last_used_time := Binary64.Fin (inject_Z (time_to_minutes tobj));
         gmaps := c |}.

(** The state after the iterations [i = 1 .. n]. *)
Definition run_upto (stops timetable : list string) (c : client World) (n : nat)
    : result loop_state :=
  st0 ← initial_state stops timetable c;
  for_each (loop_body stops timetable) (py_range 1 (S n)) st0.

(** [predict_route_times(stops, timetable)]: the rows of the returned
    frame, and the client as the call leaves it. *)
Definition predict_route_times (stops timetable : list string) (c : client World)
    : result (list row * client World) :=
  st0 ← initial_state stops timetable c;
  st ← for_each (loop_body stops timetable) (py_range 1 (length stops)) st0;
  inr (results st, gmaps st).

End Analyzer.

(** The row expected of an entry when the bus runs to the timetable: the
    entry's stop, and either the dashes of an unserved stop or the entry's
    own time with extra traffic 0 and an arrival that reads as the
    scheduled time. *)
Definition on_schedule (entry : string * string) (r : row) : Prop :=
  let (s, t) := entry in
  Stop r = s /\
  if decide (t <> "x")
  then Timetable r = t /\
       Extra_Traffic r = Num (Binary64.Fin 0) /\
       (exists tobj,
          parse_time t = inr tobj /\
          parse_time (Predicted_Arrival r) = inr tobj)
  else Timetable r = "-" /\ Extra_Traffic r = Str "-" /\ Predicted_Arrival r = "-".

(** The largest whole number of minutes below which every whole number is
    a float. *)
Definition exact_range : Q := inject_Z (2 ^ 53).

Arguments results {World} _.
Arguments last_used_stop {World} _.
Arguments last_used_time {World} _.
Arguments gmaps {World} _.

End Timetable64.

(** ** [extract_stops.py] *)

Module ExtractStops.

#[local] Open Scope list_scope.
#[local] Set Warnings "-register-all".

(** An [xml.etree.ElementTree.Element]: its qualified tag, its attributes,
    its text (absent for an empty element) and its children in order. *)
Inductive element : Type :=
| Element (tag : string) (attrib : gmap string string)
    (text : option string) (children : list element).

Definition tag (e : element) : string := let (t, _, _, _) := e in t.
Definition attrib (e : element) : gmap string string := let (_, a, _, _) := e in a.
Definition text (e : element) : option string := let (_, _, x, _) := e in x.
Definition children (e : element) : list element := let (_, _, _, c) := e in c.

(** [elem.iter()]: the element and everything below it, in document order. *)
Fixpoint iter (e : element) : list element :=
  match e with
  | Element _ _ _ cs =>
      e :: (fix below (l : list element) : list element :=
              match l with
              | [] => []
              | c :: l' => iter c ++ below l'
              end) cs
  end.

(** The prefix map [ns] of the script, applied to ["txc:name"]. *)
Definition txc (name : string) : string :=
  "{http://www.transxchange.org.uk/}" +:+ name.

(** [elem.findall(".//txc:name", ns)] *)
Definition findall_below (name : string) (e : element) : list element :=
  filter (fun d => tag d = txc name) (flat_map iter (children e)).

(** [elem.find(".//txc:name", ns)] *)
Definition find_below (name : string) (e : element) : option element :=
  head (findall_below name e).

(** [elem.find("txc:name", ns)] *)
Definition find_child (name : string) (e : element) : option element :=
  head (filter (fun d => tag d = txc name) (children e)).

(** [elem.find(".//txc:outer/txc:inner", ns)] *)
Definition find_below_child (outer inner : string) (e : element) : option element :=
  head (flat_map (fun o => filter (fun d => tag d = txc inner) (children o))
          (findall_below outer e)).

(** One entry of [stop_sequence]: the dictionary
    [{"name": stop_name, "atco_code": stop_id}]. *)
Record stop : Type := { name : option string; atco_code : option string }.

#[global] Instance stop_eq_dec : EqDecision stop.
Proof. solve_decision. Defined.

(** [str.lower()] on ASCII text *)
Definition lower_char (a : ascii) : ascii :=
  let n := nat_of_ascii a in
  if (65 <=? n)%nat && (n <=? 90)%nat then ascii_of_nat (n + 32) else a.

Fixpoint lower (s : string) : string :=
  match s with
  | EmptyString => EmptyString
  | String a r => String (lower_char a) (lower r)
  end.

(** [needle in haystack] *)
Fixpoint contains (needle haystack : string) : bool :=
  String.prefix needle haystack
  || match haystack with
     | EmptyString => false
     | String _ r => contains needle r
     end.

(** The direction test of the script; [direction_text.lower()] raises when
    the element has no text, but only on the branches that evaluate it. *)
Definition direction_match (direction : string) (direction_text : option string)
    : result bool :=
  if decide (direction = "inbound") then
    match direction_text with
    | None => inl AttributeError
    | Some txt => inr (contains "inbound" (lower txt) || contains "oxford" (lower txt))
    end
  else if decide (direction = "outbound") then
    match direction_text with
    | None => inl AttributeError
    | Some txt => inr (contains "outbound" (lower txt) || contains "london" (lower txt))
    end
  else inr false.

(** [stops_dict]: the loop over every [AnnotatedStopPointRef]; a later
    entry for the same reference replaces an earlier one. *)
Fixpoint build_stops_dict (stop_points : list element)
    (stops_dict : gmap (option string) (option string))
    : result (gmap (option string) (option string)) :=
  match stop_points with
  | [] => inr stops_dict
  | stop_point :: rest =>
      match find_child "StopPointRef" stop_point with
      | None => inl AttributeError
      | Some ref =>
          match find_child "CommonName" stop_point with
          | None => inl AttributeError
          | Some common_name =>
              build_stops_dict rest (<[text ref := text common_name]> stops_dict)
          end
      end
  end.

(** The block run for the [From] and for the [To] reference of a timing
    link: append the stop unless the reference is missing, is not in
    [stops_dict], or the stop is in the sequence already. *)
Definition add_stop (stops_dict : gmap (option string) (option string))
    (ref : option element) (stop_sequence : list stop) : list stop :=
  match ref with
  | None => stop_sequence
  | Some el =>
      let stop_id := text el in
      match stops_dict !! stop_id with
      | Some stop_name =>
          let s := {| name := stop_name; atco_code := stop_id |} in
          if decide (s ∈ stop_sequence) then stop_sequence
          else stop_sequence ++ [s]
      | None => stop_sequence
      end
  end.

Definition visit_link (stops_dict : gmap (option string) (option string))
    (stop_sequence : list stop) (timing_link : element) : list stop :=
  let from_stop := find_below_child "From" "StopPointRef" timing_link in
  let to_stop := find_below_child "To" "StopPointRef" timing_link in
  add_stop stops_dict to_stop (add_stop stops_dict from_stop stop_sequence).

Definition visit_section (stops_dict : gmap (option string) (option string))
    (stop_sequence : list stop) (jp_section : element) : list stop :=
  foldl (visit_link stops_dict) stop_sequence
    (findall_below "JourneyPatternTimingLink" jp_section).

(** [f"{section_id}"]: the text spliced into the path, ["None"] for an
    element without text. *)
Definition format_id (section_id : option string) : string :=
  match section_id with
  | Some s => s
  | None => "None"
  end.

Section Extract.

(** [root.findall(f'.//txc:JourneyPatternSection[@id="{section_id}"]', ns)]
    as the path engine of ElementTree evaluates it on the spliced text; it
    can raise on text that does not form a path. *)
Variable findall_sections : element -> string -> result (list element).

(** The loop over the [JourneyPatternSectionRef]s of a journey pattern. *)
Fixpoint visit_refs (root : element)
    (stops_dict : gmap (option string) (option string))
    (jp_section_refs : list element) (stop_sequence : list stop)
    : result (list stop) :=
  match jp_section_refs with
  | [] => inr stop_sequence
  | jp_section_ref :: rest =>
      let section_id := text jp_section_ref in
      sections ← findall_sections root (format_id section_id);
      visit_refs root stops_dict rest
        (foldl (visit_section stops_dict) stop_sequence sections)
  end.

(** One journey pattern: [Some] sequence when the pattern matches the
    direction and yields stops (the script returns it at once), [None]
    when the loop goes on to the next pattern. *)
Definition try_pattern (root : element)
    (stops_dict : gmap (option string) (option string))
    (direction : string) (journey_pattern : element)
    : result (option (list stop)) :=
  match find_below "Direction" journey_pattern with
  | None => inr None
  | Some direction_elem =>
      direction_match ← direction_match direction (text direction_elem);
      if direction_match : bool then
        stop_sequence ←
          visit_refs root stops_dict
            (findall_below "JourneyPatternSectionRef" journey_pattern) [];
        match stop_sequence with
        | [] => inr None
        | _ => inr (Some stop_sequence)
        end
      else inr None
  end.

(** The first hit of [f] along a list, as the nested loops with their
    early [return] find it. *)
Fixpoint first_hit {A : Type} (f : A -> result (option (list stop)))
    (l : list A) : result (option (list stop)) :=
  match l with
  | [] => inr None
  | x :: rest =>
      r ← f x;
      match r with
      | Some found => inr (Some found)
      | None => first_hit f rest
      end
  end.

Definition try_service (root : element)
    (stops_dict : gmap (option string) (option string))
    (route_name direction : string) (service : element)
    : result (option (list stop)) :=
  first_hit
    (fun line =>
       if decide (text line = Some route_name)
       then first_hit (try_pattern root stops_dict direction)
              (findall_below "JourneyPattern" service)
       else inr None)
    (findall_below "LineName" service).

(** [extract_stops_from_xml(route_name, direction)] on the parsed document
    [root].  [route_stops] stays empty unless the function returns from
    inside the loops, so the two trailing [break]s never fire. *)
Definition extract_stops_from_xml (root : element) (route_name direction : string)
    : result (list stop) :=
  stops_dict ← build_stops_dict (findall_below "AnnotatedStopPointRef" root) ∅;
  found ← first_hit (try_service root stops_dict route_name direction)
            (findall_below "Service" root);
  match found with
  | Some route_stops => inr route_stops
  | None => inr []
  end.

(** The [From] and [To] references of the timing links that the section
    references of a journey pattern lead to, in the order they are met. *)
Definition link_refs (timing_link : element) : list (option element) :=
  [ find_below_child "From" "StopPointRef" timing_link;
    find_below_child "To" "StopPointRef" timing_link ].

Definition section_refs (jp_section : element) : list (option element) :=
  flat_map link_refs (findall_below "JourneyPatternTimingLink" jp_section).

Fixpoint pattern_refs (root : element) (jp_section_refs : list element)
    : result (list (option element)) :=
  match jp_section_refs with
  | [] => inr []
  | jp_section_ref :: rest =>
      sections ← findall_sections root (format_id (text jp_section_ref));
      more ← pattern_refs root rest;
      inr (flat_map section_refs sections ++ more)
  end.

End Extract.

(** The stop a reference resolves to, if the stop-point table has it. *)
Definition resolve (stops_dict : gmap (option string) (option string))
    (ref : option element) : option stop :=
  match ref with
  | None => None
  | Some el =>
      match stops_dict !! text el with
      | Some stop_name => Some {| name := stop_name; atco_code := text el |}
      | None => None
      end
  end.

(** A sequence with its repetitions removed, each element staying where it
    was first seen. *)
Fixpoint first_seen (l : list stop) : list stop :=
  match l with
  | [] => []
  | x :: rest => x :: filter (fun y => y <> x) (first_seen rest)
  end.

(** The step of the loops on a stop that resolved: append it unless it is
    in the sequence already. *)
Definition push (stop_sequence : list stop) (s : stop) : list stop :=
  if decide (s ∈ stop_sequence) then stop_sequence else stop_sequence ++ [s].

(** An [AnnotatedStopPointRef] that declares the stop [s]. *)
Definition declares (stop_point : element) (s : stop) : Prop :=
  exists ref common_name,
    find_child "StopPointRef" stop_point = Some ref /\
    find_child "CommonName" stop_point = Some common_name /\
    atco_code s = text ref /\ name s = text common_name.

(** A journey pattern that the search can return from: a pattern of a
    service that has a line named [route_name]. *)
Definition pattern_of_route (root : element) (route_name : string)
    (journey_pattern : element) : Prop :=
  exists service line,
    service ∈ findall_below "Service" root /\
    line ∈ findall_below "LineName" service /\
    text line = Some route_name /\
    journey_pattern ∈ findall_below "JourneyPattern" service.

End ExtractStops.

(** ** Concrete services and routes *)

Module Examples.
Import Timetable.

(** A response with one route of one leg taking [secs] seconds. *)
Definition one_leg (secs : Q) : response :=
  Returned [ {| legs := [ {| duration_in_traffic := Some secs |} ] |} ].

(** A service that answers every request with the same duration. *)
Definition steady (secs : Q) (w : unit) (origin destination : string)
    : response * unit :=
  (one_leg secs, w).

(** A service that finds no route, whatever the request. *)
Definition no_route (w : unit) (origin destination : string) : response * unit :=
  (Returned [], w).

Definition fresh {World : Type} (w : World) : client World :=
  {| world := w; requests := [] |}.

(** The anchor row and state of a route that leaves ["A"] at 07:00. *)
Definition anchor_A : row :=
  {| Stop := "A"; Timetable := "07:00"; Extra_Traffic := Num 0;
     Predicted_Arrival := "07:00" |}.

Definition state_A {World : Type} (w : World) : loop_state World :=
  {| results := [anchor_A]; last_used_stop := "A";
     last_used_time := inject_Z 420; gmaps := fresh w |}.

(** The row of an unserved stop. *)
Definition dash_row (s : string) : row :=
  {| Stop := s; Timetable := "-"; Extra_Traffic := Str "-";
     Predicted_Arrival := "-" |}.

(** *** A small TransXChange document *)

Import ExtractStops.

(** The path with an [id] predicate, for an id without a double quote:
    the sections below the root whose [id] attribute is that text. *)
Definition sections_by_id (root : element) (section_id : string)
    : result (list element) :=
  inr (filter (fun d => tag d = txc "JourneyPatternSection"
                        /\ attrib d !! "id" = Some section_id)
         (flat_map iter (children root))).

Definition leaf (name value : string) : element :=
  Element (txc name) ∅ (Some value) [].

Definition node (name : string) (children : list element) : element :=
  Element (txc name) ∅ None children.

Definition stop_point (ref common_name : string) : element :=
  node "AnnotatedStopPointRef"
    [leaf "StopPointRef" ref; leaf "CommonName" common_name].

Definition timing_link (from to : string) : element :=
  node "JourneyPatternTimingLink"
    [node "From" [leaf "StopPointRef" from];
     node "To" [leaf "StopPointRef" to]].

(** One service of line X90 with one outbound pattern over one section;
    the section calls at S1, S2, the undeclared S3, and S1 again. *)
Definition document : element :=
  node "TransXChange"
    [ node "StopPoints"
        [stop_point "S1" "Gloucester Green"; stop_point "S2" "Thornhill"];
      node "JourneyPatternSections"
        [ Element (txc "JourneyPatternSection") {[ "id" := "JPS1" ]} None
            [timing_link "S1" "S2"; timing_link "S2" "S3";
             timing_link "S3" "S1"] ];
      node "Services"
        [ node "Service"
            [ node "Lines" [node "Line" [leaf "LineName" "X90"]];
              node "StandardService"
                [ node "JourneyPattern"
                    [ leaf "Direction" "outbound";
                      node "JourneyPatternSectionRefs"
                        [leaf "JourneyPatternSectionRef" "JPS1"] ] ] ] ] ].

Definition stops_S1_S2 : list stop :=
  [ {| name := Some "Gloucester Green"; atco_code := Some "S1" |};
    {| name := Some "Thornhill"; atco_code := Some "S2" |} ].

End Examples.

(** ** Concrete services in binary64 *)

Module Examples64.
Import Timetable Timetable64.

(** A response with one route of one leg of the given duration. *)
Definition one_leg (duration : number) : response :=
  Returned [ {| legs := [ {| duration_in_traffic := Some duration |} ] |} ].

(** A service that answers every request with the same duration. *)
Definition steady (duration : number) (w : unit) (origin destination : string)
    : response * unit :=
  (one_leg duration, w).

(** A service that answers the requests as they come with the durations of
    a list, and finds no route once the list is used up. *)
Definition scripted (w : list number) (origin destination : string)
    : response * list number :=
  match w with
  | duration :: rest => (one_leg duration, rest)
  | [] => (Returned [], [])
  end.

(** The anchor row and state of a route that leaves ["A"] at 07:00. *)
Definition anchor_A : row :=
  {| Stop := "A"; Timetable := "07:00"; Extra_Traffic := Num (Binary64.Fin 0);
     Predicted_Arrival := "07:00" |}.

Definition state_A {World : Type} (w : World) : loop_state World :=
  {| results := [anchor_A]; last_used_stop := "A";
     last_used_time := Binary64.Fin (inject_Z 420); gmaps := Examples.fresh w |}.

(** The cells of a table that hold the numbers: extra traffic and
    predicted arrival. *)
Definition shown (rows : list row) : list (cell * string) :=
  map (fun r => (Extra_Traffic r, Predicted_Arrival r)) rows.

(** The float written [0.1]. *)
Definition tenth : Binary64.float := Binary64.rnd (1 # 10).

End Examples64.

(** ** Predicates used by the further properties *)

Module Shapes.
Import ExtractStops.

(** An [AnnotatedStopPointRef] with both children the script reads. *)
Definition complete (stop_point : element) : Prop :=
  is_Some (find_child "StopPointRef" stop_point) /\
  is_Some (find_child "CommonName" stop_point).

(** The stop code an [AnnotatedStopPointRef] declares. *)
Definition declared_code (stop_point : element) : option (option string) :=
  match find_child "StopPointRef" stop_point with
  | Some ref => Some (text ref)
  | None => None
  end.

(** No service of the document has a line named [route_name]. *)
Definition no_such_line (root : element) (route_name : string) : Prop :=
  forall service line,
    service ∈ findall_below "Service" root ->
    line ∈ findall_below "LineName" service ->
    text line <> Some route_name.

End Shapes.

(** ** More small documents *)

Module MoreExamples.
Import ExtractStops Examples.

(** A stop point without its [CommonName]. *)
Definition nameless_stop_point : element :=
  node "AnnotatedStopPointRef" [leaf "StopPointRef" "S1"].

Definition nameless_document : element :=
  node "TransXChange" [node "StopPoints" [nameless_stop_point]].

(** The document of line X90 with S1 declared twice, under two names, and
    one timing link from S1 to S2. *)
Definition renamed_document : element :=
  node "TransXChange"
    [ node "StopPoints"
        [stop_point "S1" "Coach Station"; stop_point "S2" "Thornhill";
         stop_point "S1" "Gloucester Green"];
      node "JourneyPatternSections"
        [ Element (txc "JourneyPatternSection") {[ "id" := "JPS1" ]} None
            [timing_link "S1" "S2"] ];
      node "Services"
        [ node "Service"
            [ node "Lines" [node "Line" [leaf "LineName" "X90"]];
              node "StandardService"
                [ node "JourneyPattern"
                    [ leaf "Direction" "outbound";
                      node "JourneyPatternSectionRefs"
                        [leaf "JourneyPatternSectionRef" "JPS1"] ] ] ] ] ].

Definition gloucester_green : stop :=
  {| name := Some "Gloucester Green"; atco_code := Some "S1" |}.

Definition quarter_to_eight : Timetable.time :=
  {| Timetable.hour := 7; Timetable.minute := 45 |}.

End MoreExamples.
(** * Properties *)

#[local] Open Scope list_scope.

(** ** Numbers and strings *)

Module PyFacts.

Lemma max_ge_l (a b : Q) : (a <= Py.max a b)%Q.
Proof. unfold Py.max. destruct (Qlt_le_dec a b); lra. Qed.

Lemma max_ge_r (a b : Q) : (b <= Py.max a b)%Q.
Proof. unfold Py.max. destruct (Qlt_le_dec a b); lra. Qed.

Lemma max_zero_nonpos (x : Q) : (x <= 0)%Q -> Py.max 0 x = 0%Q.
Proof.
  intros H. unfold Py.max. destruct (Qlt_le_dec 0 x) as [H' | _]; [lra | reflexivity].
Qed.

Lemma inject_Z_sub (x y z : Z) :
  z = x - y -> (inject_Z z == inject_Z x - inject_Z y)%Q.
Proof.
  intros ->. unfold Qminus. rewrite <- inject_Z_opp, <- inject_Z_plus.
  reflexivity.
Qed.

(** [Qfloor] is pinned down by the unit interval its argument lies in. *)
Lemma Qfloor_unique (x : Q) (z : Z) :
  (inject_Z z <= x)%Q -> (x < inject_Z (z + 1))%Q -> Qfloor x = z.
Proof.
  intros Hlo Hhi.
  pose proof (Qfloor_le x) as H1. pose proof (Qlt_floor x) as H2.
  assert (Qfloor x < z + 1) as A.
  { rewrite Zlt_Qlt. lra. }
  assert (z < Qfloor x + 1) as B.
  { rewrite Zlt_Qlt. lra. }
  lia.
Qed.

Lemma Qfloor_nonneg (x : Q) : (0 <= x)%Q -> 0 <= Qfloor x.
Proof.
  intros H. change 0 with (Qfloor 0). apply Qfloor_resp_le. exact H.
Qed.

Lemma floordiv_60 (q : Q) : Qfloor (q / 60) = Qfloor q / 60.
Proof.
  pose proof (Qfloor_le q) as H1. pose proof (Qlt_floor q) as H2.
  set (n := Qfloor q) in *.
  pose proof (Z.div_mod n 60 ltac:(lia)) as D.
  pose proof (Z.mod_pos_bound n 60 ltac:(lia)) as M.
  apply Qfloor_unique.
  - assert (inject_Z (60 * (n / 60)) <= inject_Z n)%Q as A
      by (rewrite <- Zle_Qle; lia).
    rewrite inject_Z_mult in A. change (inject_Z 60) with (60 # 1)%Q in A.
    apply Qle_shift_div_l; [reflexivity |]. lra.
  - assert (inject_Z (n + 1) <= inject_Z (60 * (n / 60 + 1)))%Q as A
      by (rewrite <- Zle_Qle; lia).
    rewrite inject_Z_mult in A. change (inject_Z 60) with (60 # 1)%Q in A.
    apply Qlt_shift_div_r; [reflexivity |]. lra.
Qed.

Lemma int_floordiv_60 (q : Q) :
  (0 <= q)%Q -> Py.int (Py.floordiv q 60) = Qfloor q / 60.
Proof.
  intros Hq. unfold Py.int, Py.floordiv.
  rewrite floordiv_60.
  pose proof (Qfloor_nonneg q Hq) as Hn.
  pose proof (Z.div_pos (Qfloor q) 60 Hn ltac:(lia)) as Hd.
  destruct (Qlt_le_dec _ 0) as [H | _].
  - exfalso. change 0%Q with (inject_Z 0) in H.
    rewrite <- Zlt_Qlt in H. lia.
  - apply Qfloor_Z.
Qed.

Lemma int_mod_60 (q : Q) :
  (0 <= q)%Q -> Py.int (Py.mod_ q 60) = Qfloor q mod 60.
Proof.
  intros Hq. unfold Py.int, Py.mod_.
  rewrite floordiv_60.
  pose proof (Qfloor_le q) as H1. pose proof (Qlt_floor q) as H2.
  set (n := Qfloor q) in *.
  pose proof (Z.div_mod n 60 ltac:(lia)) as D.
  pose proof (Z.mod_pos_bound n 60 ltac:(lia)) as M.
  assert (inject_Z (n mod 60) == inject_Z n - 60 * inject_Z (n / 60))%Q as E.
  { rewrite (inject_Z_sub n (60 * (n / 60))), inject_Z_mult.
    - reflexivity.
    - lia. }
  assert (0 <= inject_Z (n mod 60))%Q as P
    by (change 0%Q with (inject_Z 0); rewrite <- Zle_Qle; lia).
  assert (inject_Z (n mod 60 + 1) <= 60)%Q as P'
    by (change 60%Q with (inject_Z 60); rewrite <- Zle_Qle; lia).
  rewrite inject_Z_plus in H2.
  destruct (Qlt_le_dec _ 0) as [H | _]; [exfalso; lra |].
  apply Qfloor_unique; rewrite ?inject_Z_plus; lra.
Qed.

Lemma round1_zero (e : Q) : (e == 0)%Q -> (Py.round1 e == 0)%Q.
Proof.
  intros He. unfold Py.round1.
  assert (Qfloor (e * 10) = 0) as Hn.
  { apply Qfloor_unique.
    - change (inject_Z 0) with 0%Q. lra.
    - change (inject_Z (0 + 1)) with 1%Q. lra. }
  rewrite Hn. change (inject_Z 0) with 0%Q.
  destruct (Qlt_le_dec _ _) as [_ | H]; [reflexivity |].
  exfalso. lra.
Qed.

End PyFacts.

(** ** Clock strings *)

Module ClockFacts.
Import Timetable.

Lemma digit_string_no_colon (d : uint) :
  split_colon (NilEmpty.string_of_uint d) = None.
Proof. induction d; simpl; rewrite ?IHd; reflexivity. Qed.

Lemma to_uint_nonnil (n : N) : N.to_uint n <> Nil.
Proof.
  destruct n as [| p]; simpl; [discriminate |].
  apply DecimalPos.Unsigned.to_uint_nonnil.
Qed.

Lemma digits_unfold (n : Z) :
  Py.digits n = NilEmpty.string_of_uint (N.to_uint (Z.to_N n)).
Proof.
  unfold Py.digits, NilZero.string_of_uint.
  pose proof (to_uint_nonnil (Z.to_N n)) as H.
  destruct (N.to_uint (Z.to_N n)); congruence.
Qed.

Lemma format_02d_unfold (n : Z) :
  0 <= n ->
  exists d, d <> Nil /\ N.of_uint d = Z.to_N n /\
            Py.format_02d n = NilEmpty.string_of_uint d.
Proof.
  intros Hn. unfold Py.format_02d.
  destruct (Z.ltb_spec n 0) as [? | _]; [lia |].
  rewrite digits_unfold.
  set (d := N.to_uint (Z.to_N n)).
  assert (N.of_uint d = Z.to_N n) as Hd by apply DecimalN.Unsigned.of_to.
  destruct (String.length _ <? 2)%nat.
  - exists (D0 d). split; [discriminate |]. split; [exact Hd | reflexivity].
  - exists d. split; [apply to_uint_nonnil |]. split; [exact Hd | reflexivity].
Qed.

Lemma format_02d_no_colon (n : Z) :
  0 <= n -> split_colon (Py.format_02d n) = None.
Proof.
  intros Hn. destruct (format_02d_unfold n Hn) as (d & _ & _ & ->).
  apply digit_string_no_colon.
Qed.

Lemma read_format_02d (n : Z) :
  0 <= n -> read_digits (Py.format_02d n) = Some n.
Proof.
  intros Hn. destruct (format_02d_unfold n Hn) as (d & Hnil & Hd & ->).
  unfold read_digits.
  replace (NilEmpty.string_of_uint d) with (NilZero.string_of_uint d)
    by (destruct d; [congruence | reflexivity ..]).
  rewrite (NilZero.usu d Hnil), Hd. f_equal. lia.
Qed.

Lemma split_colon_app (a b : string) :
  split_colon a = None -> split_colon (a +:+ ":" +:+ b) = Some (a, b).
Proof.
  induction a as [| c a IH]; simpl; intros H.
  - reflexivity.
  - destruct (Ascii.eqb c ":"); [discriminate |].
    destruct (split_colon a) as [[? ?] |]; [discriminate |].
    rewrite IH by reflexivity. reflexivity.
Qed.

Lemma split_render (q : Q) :
  (0 <= q)%Q ->
  split_colon (minutes_to_time_str q)
  = Some (Py.format_02d (Qfloor q / 60), Py.format_02d (Qfloor q mod 60)).
Proof.
  intros Hq. unfold minutes_to_time_str.
  rewrite (PyFacts.int_floordiv_60 q Hq), (PyFacts.int_mod_60 q Hq).
  apply split_colon_app, format_02d_no_colon.
  apply Z.div_pos; [apply PyFacts.Qfloor_nonneg; exact Hq | lia].
Qed.

(** A rendered time reads back as the whole minutes of its argument. *)
Lemma clock_minutes_render (q : Q) :
  (0 <= q)%Q -> clock_minutes (minutes_to_time_str q) = Some (Qfloor q).
Proof.
  intros Hq. unfold clock_minutes. rewrite (split_render q Hq).
  pose proof (PyFacts.Qfloor_nonneg q Hq) as Hn.
  pose proof (Z.div_pos (Qfloor q) 60 Hn ltac:(lia)) as Hd.
  pose proof (Z.mod_pos_bound (Qfloor q) 60 ltac:(lia)) as Hm.
  rewrite !read_format_02d by lia.
  f_equal. pose proof (Z.div_mod (Qfloor q) 60 ltac:(lia)). lia.
Qed.

(** The parser accepts what the reader accepts, with the same value. *)
Lemma parse_time_clock (s : string) (tobj : time) :
  parse_time s = inr tobj -> clock_minutes s = Some (time_to_minutes tobj).
Proof.
  unfold parse_time, clock_minutes.
  destruct (split_colon s) as [[h m] |]; [| discriminate].
  destruct (read_digits h) as [hv |]; [| discriminate].
  destruct (read_digits m) as [mv |]; [| discriminate].
  destruct (_ && _); [| discriminate].
  intros [= <-]. reflexivity.
Qed.

Lemma parse_time_bounds (s : string) (tobj : time) :
  parse_time s = inr tobj ->
  0 <= hour tobj <= 23 /\ 0 <= minute tobj <= 59.
Proof.
  unfold parse_time, read_digits.
  destruct (split_colon s) as [[h m] |]; [| discriminate].
  destruct (NilZero.uint_of_string h) as [hd |]; [| discriminate].
  destruct (NilZero.uint_of_string m) as [md |]; [| discriminate].
  destruct (_ && _) eqn:E; [| discriminate].
  intros [= <-]. simpl.
  repeat (apply andb_prop in E; destruct E as [E ?]).
  lia.
Qed.

Lemma parse_time_minutes_range (s : string) (tobj : time) :
  parse_time s = inr tobj -> 0 <= time_to_minutes tobj < 1440.
Proof.
  intros H. apply parse_time_bounds in H. unfold time_to_minutes. lia.
Qed.

Lemma format_02d_width (n : Z) :
  0 <= n < 100 -> String.length (Py.format_02d n) = 2%nat.
Proof.
  intros Hn.
  assert (forallb (fun k => Nat.eqb (String.length (Py.format_02d (Z.of_nat k))) 2)
            (seq 0 100) = true) as A by (vm_compute; reflexivity).
  rewrite forallb_forall in A.
  specialize (A (Z.to_nat n)).
  rewrite Z2Nat.id in A by lia.
  apply Nat.eqb_eq, A, in_seq. lia.
Qed.

(** Within one day, the script's own parser reads a rendered time back. *)
Lemma parse_time_render (q : Q) :
  (0 <= q)%Q -> Qfloor q < 1440 ->
  parse_time (minutes_to_time_str q)
  = inr {| hour := Qfloor q / 60; minute := Qfloor q mod 60 |}.
Proof.
  intros Hq Hday. unfold parse_time. rewrite (split_render q Hq).
  pose proof (PyFacts.Qfloor_nonneg q Hq) as Hn.
  pose proof (Z.div_pos (Qfloor q) 60 Hn ltac:(lia)) as Hd.
  pose proof (Z.mod_pos_bound (Qfloor q) 60 ltac:(lia)) as Hm.
  assert (Qfloor q / 60 < 24) as Hh by (apply Z.div_lt_upper_bound; lia).
  rewrite !read_format_02d by lia.
  rewrite !format_02d_width by lia.
  replace (Qfloor q / 60 <=? 23) with true by (symmetry; apply Z.leb_le; lia).
  replace (Qfloor q mod 60 <=? 59) with true by (symmetry; apply Z.leb_le; lia).
  reflexivity.
Qed.

End ClockFacts.

(** ** Binary floating point *)



Module Binary64Facts.
Import Binary64.

Lemma pow2_pos (e : Z) : (0 < pow2 e)%Q.
Proof. apply Qpower_0_lt. reflexivity. Qed.

Lemma pow2_add (a b : Z) : (pow2 (a + b) == pow2 a * pow2 b)%Q.
Proof. apply Qpower_plus. discriminate. Qed.

Lemma pow2_Z (e : Z) : 0 <= e -> (pow2 e == inject_Z (2 ^ e))%Q.
Proof. intros H. unfold pow2. rewrite Zpower_Qpower by exact H. reflexivity. Qed.

Lemma pow2_le (a b : Z) : a <= b -> (pow2 a <= pow2 b)%Q.
Proof. intros H. apply Qpower_le_compat_l; [exact H | discriminate]. Qed.

Lemma pow2_lt_inv (a b : Z) : (pow2 a < pow2 b)%Q -> a < b.
Proof. intros H. apply (Qpower_lt_compat_l_inv 2); [exact H | reflexivity]. Qed.

Lemma ilog2_lower (q : Q) : (0 < q)%Q -> (pow2 (ilog2 q) <= q)%Q.
Proof.
  intros Hq. unfold ilog2.
  destruct (Qle_bool _ q) eqn:E; [apply Qle_bool_iff; exact E |].
  destruct q as [a b]. cbn [Qnum Qden].
  assert (0 < a) as Ha by (unfold Qlt in Hq; simpl in Hq; lia).
  pose proof (Z.log2_spec a Ha) as [La _].
  pose proof (Z.log2_spec (Z.pos b) ltac:(lia)) as [_ Lb].
  pose proof (Z.log2_nonneg a) as Na.
  pose proof (Z.log2_nonneg (Z.pos b)) as Nb.
  set (la := Z.log2 a) in *. set (lb := Z.log2 (Z.pos b)) in *.
  replace (la - lb - 1) with (la - (lb + 1)) by lia.
  unfold pow2. rewrite Qpower_minus by discriminate.
  fold (pow2 la). fold (pow2 (lb + 1)).
  rewrite (pow2_Z la), (pow2_Z (lb + 1)) by lia.
  rewrite (Qmake_Qdiv a b).
  assert (0 < inject_Z (2 ^ (lb + 1)))%Q as P1.
  { change 0%Q with (inject_Z 0). rewrite <- Zlt_Qlt. lia. }
  assert (0 < inject_Z (Z.pos b))%Q as P2.
  { change 0%Q with (inject_Z 0). rewrite <- Zlt_Qlt. lia. }
  apply Qle_shift_div_r; [exact P1 |].
  assert (inject_Z (2 ^ la) * inject_Z (Z.pos b)
          <= inject_Z a * inject_Z (2 ^ (lb + 1)))%Q as K.
  { rewrite <- !inject_Z_mult, <- Zle_Qle. nia. }
  assert (inject_Z a / inject_Z (Z.pos b) * inject_Z (2 ^ (lb + 1))
          == inject_Z a * inject_Z (2 ^ (lb + 1)) / inject_Z (Z.pos b))%Q as R.
  { field. intros Z0. rewrite Z0 in P2. apply (Qlt_irrefl 0). exact P2. }
  rewrite R. apply Qle_shift_div_l; [exact P2 | exact K].
Qed.


Lemma pow2_le_inv (a b : Z) : (pow2 a <= pow2 b)%Q -> a <= b.
Proof. intros H. apply (Qpower_le_compat_l_inv 2); [exact H | reflexivity]. Qed.

Lemma inject_Z_nonneg (z : Z) : 0 <= z -> (0 <= inject_Z z)%Q.
Proof. intros H. change 0%Q with (inject_Z 0). rewrite <- Zle_Qle. exact H. Qed.

(** *** Rounding to a whole number *)

Lemma half_even_floor (q : Q) :
  half_even q = Qfloor q \/ half_even q = Qfloor q + 1.
Proof.
  unfold half_even. destruct (_ ?= _)%Q; auto. destruct (Z.even _); auto.
Qed.

Lemma half_even_ge (q : Q) (n : Z) : (inject_Z n <= q)%Q -> n <= half_even q.
Proof.
  intros H. apply Qfloor_resp_le in H. rewrite Qfloor_Z in H.
  destruct (half_even_floor q) as [-> | ->]; lia.
Qed.

Lemma half_even_le (q : Q) (n : Z) : (q <= inject_Z n)%Q -> half_even q <= n.
Proof.
  intros H. pose proof H as F. apply Qfloor_resp_le in F. rewrite Qfloor_Z in F.
  destruct (Z.eq_dec (Qfloor q) n) as [E | E].
  - unfold half_even. rewrite E.
    pose proof (Qfloor_le q) as L. rewrite E in L.
    assert (q - inject_Z n < 1 # 2)%Q as K by lra.
    rewrite Qlt_alt in K. rewrite K. lia.
  - destruct (half_even_floor q) as [-> | ->]; lia.
Qed.

Lemma half_even_int (q : Q) (n : Z) : (q == inject_Z n)%Q -> half_even q = n.
Proof.
  intros H. apply Z.le_antisymm.
  - apply half_even_le. rewrite H. apply Qle_refl.
  - apply half_even_ge. rewrite H. apply Qle_refl.
Qed.

(** *** Rounding to a float *)

(** A whole number up to [2 ^ 53] is a multiple of the spacing [2 ^ e] of
    the floats around it. *)
Lemma on_grid (z e : Z) :
  0 <= z <= 2 ^ 53 -> e <= 0 \/ (e = 1 /\ z = 2 ^ 53) ->
  exists k, (inject_Z z == inject_Z k * pow2 e)%Q.
Proof.
  intros Hz [He | [-> ->]].
  - exists (z * 2 ^ (- e)). rewrite inject_Z_mult, <- (pow2_Z (- e)) by lia.
    rewrite <- Qmult_assoc, <- pow2_add. replace (- e + e) with 0 by lia.
    change (pow2 0) with 1%Q. ring.
  - exists (2 ^ 52). reflexivity.
Qed.

Lemma nearest_spacing (q : Q) :
  (0 < q)%Q -> (q <= inject_Z (2 ^ 53))%Q ->
  let e := Z.max (ilog2 q - 52) (-1074) in
  e <= 0 \/ (e = 1 /\ (q == inject_Z (2 ^ 53))%Q).
Proof.
  intros Hq Hle e. pose proof (ilog2_lower q Hq) as L.
  assert (ilog2 q <= 53) as B.
  { apply pow2_le_inv. rewrite (pow2_Z 53) by lia. lra. }
  destruct (Z.eq_dec (ilog2 q) 53) as [E | E]; [right | left; lia].
  split; [lia |]. rewrite E, (pow2_Z 53) in L by lia. lra.
Qed.

Lemma nearest_le (q : Q) (z : Z) :
  (0 < q)%Q -> (q <= inject_Z z)%Q -> z <= 2 ^ 53 ->
  exists v, nearest q = Fin v /\ (v <= inject_Z z)%Q.
Proof.
  intros Hq Hle Hz.
  assert (0 <= z) as Hz0.
  { rewrite Zle_Qle. change (inject_Z 0) with 0%Q. lra. }
  assert (q <= inject_Z (2 ^ 53))%Q as Hq53.
  { apply Qle_trans with (inject_Z z); [exact Hle |]. rewrite <- Zle_Qle. exact Hz. }
  pose proof (nearest_spacing q Hq Hq53) as S. cbv zeta in S.
  unfold nearest. set (e := Z.max (ilog2 q - 52) (-1074)) in *.
  assert (e <= 0 \/ (e = 1 /\ z = 2 ^ 53)) as S'.
  { destruct S as [S | [S1 S2]]; [left; exact S | right]. split; [exact S1 |].
    apply Z.le_antisymm; [exact Hz |]. rewrite Zle_Qle. lra. }
  destruct (on_grid z e ltac:(lia) S') as [k Hk].
  replace ((971 <? e) || ((e =? 971) && (2 ^ 53 <=? half_even (q / pow2 e))))
    with false.
  2:{ symmetry. apply orb_false_iff. split.
      - apply Z.ltb_ge. lia.
      - apply andb_false_iff. left. apply Z.eqb_neq. lia. }
  eexists. split; [reflexivity |]. rewrite Qred_correct, Hk.
  pose proof (pow2_pos e) as P.
  apply Qmult_le_compat_r; [| lra].
  rewrite <- Zle_Qle. apply half_even_le.
  apply Qle_shift_div_r; [exact P |]. rewrite <- Hk. exact Hle.
Qed.

Lemma nearest_ge (q : Q) (z : Z) :
  (0 < q)%Q -> (inject_Z z <= q)%Q -> 0 <= z <= 2 ^ 53 ->
  nearest q = Inf false \/ exists v, nearest q = Fin v /\ (inject_Z z <= v)%Q.
Proof.
  intros Hq Hle Hz. unfold nearest.
  set (e := Z.max (ilog2 q - 52) (-1074)).
  destruct (_ || _); [left; reflexivity | right].
  eexists. split; [reflexivity |]. rewrite Qred_correct.
  pose proof (pow2_pos e) as P.
  destruct (Z_le_gt_dec e 0) as [He | He].
  - destruct (on_grid z e Hz (or_introl He)) as [k Hk]. rewrite Hk.
    apply Qmult_le_compat_r; [| lra].
    rewrite <- Zle_Qle. apply half_even_ge.
    apply Qle_shift_div_l; [exact P |]. rewrite <- Hk. exact Hle.
  - assert (e = ilog2 q - 52) as E by lia.
    pose proof (ilog2_lower q Hq) as L.
    replace (ilog2 q) with (52 + e) in L by lia.
    rewrite pow2_add, (pow2_Z 52) in L by lia.
    assert (2 ^ 52 <= half_even (q / pow2 e)) as M.
    { apply half_even_ge. apply Qle_shift_div_l; [exact P | exact L]. }
    assert (inject_Z 2 <= pow2 e)%Q as T.
    { change (inject_Z 2) with (pow2 1). apply pow2_le. lia. }
    apply Qle_trans with (inject_Z (2 ^ 52) * inject_Z 2)%Q.
    + rewrite <- inject_Z_mult, <- Zle_Qle. lia.
    + apply Qle_trans with (inject_Z (half_even (q / pow2 e)) * inject_Z 2)%Q.
      * apply Qmult_le_compat_r; [rewrite <- Zle_Qle; exact M | discriminate].
      * apply Qmult_le_l; [| exact T].
        apply Qlt_le_trans with (inject_Z (2 ^ 52)); [reflexivity |].
        rewrite <- Zle_Qle. exact M.
Qed.

Lemma nearest_nonneg (q : Q) : (0 < q)%Q -> nonneg (nearest q).
Proof.
  intros Hq. destruct (nearest_ge q 0 Hq) as [-> | (v & -> & Hv)];
    [change (inject_Z 0) with 0%Q; lra | lia | reflexivity | exact Hv].
Qed.

Lemma rnd_nonneg (q : Q) : (0 <= q)%Q -> nonneg (rnd q).
Proof.
  intros Hq. unfold rnd. destruct (q ?= 0)%Q eqn:E.
  - simpl. lra.
  - rewrite <- Qlt_alt in E. lra.
  - rewrite <- Qgt_alt in E. apply nearest_nonneg. exact E.
Qed.

(** A rational at or above a whole number up to [2 ^ 53] rounds to a float
    at or above it. *)
Lemma rnd_ge (q : Q) (z : Z) :
  (inject_Z z <= q)%Q -> 0 <= z <= 2 ^ 53 ->
  rnd q = Inf false \/ exists v, rnd q = Fin v /\ (inject_Z z <= v)%Q.
Proof.
  intros Hle Hz.
  assert (0 <= inject_Z z)%Q as Hz' by (apply inject_Z_nonneg; lia).
  unfold rnd. destruct (q ?= 0)%Q eqn:E.
  - apply Qeq_alt in E. right. exists 0%Q. split; [reflexivity | lra].
  - rewrite <- Qlt_alt in E. lra.
  - rewrite <- Qgt_alt in E. apply nearest_ge; assumption.
Qed.

(** A whole number up to [2 ^ 53] in size is a float: rounding leaves it
    as it is. *)
Lemma rnd_int (q : Q) (z : Z) :
  (q == inject_Z z)%Q -> - 2 ^ 53 <= z <= 2 ^ 53 ->
  exists v, rnd q = Fin v /\ (v == q)%Q.
Proof.
  intros Hq Hz. unfold rnd. destruct (q ?= 0)%Q eqn:E.
  - apply Qeq_alt in E. exists 0%Q. split; [reflexivity | lra].
  - rewrite <- Qlt_alt in E.
    assert (z < 0) as Hneg.
    { rewrite Zlt_Qlt. change (inject_Z 0) with 0%Q. lra. }
    assert (- q == inject_Z (- z))%Q as Hq' by (rewrite inject_Z_opp, Hq; reflexivity).
    destruct (nearest_le (- q) (- z)) as (v & Hv & Hle); [lra | lra | lia |].
    destruct (nearest_ge (- q) (- z)) as [K | (v' & Hv' & Hge)]; [lra | lra | lia | congruence |].
    rewrite Hv in Hv'. injection Hv' as <-.
    rewrite Hv. exists (- v)%Q. split; [reflexivity | lra].
  - rewrite <- Qgt_alt in E.
    assert (0 < z) as Hpos.
    { rewrite Zlt_Qlt. change (inject_Z 0) with 0%Q. lra. }
    destruct (nearest_le q z) as (v & Hv & Hle); [lra | lra | lia |].
    destruct (nearest_ge q z) as [K | (v' & Hv' & Hge)]; [lra | lra | lia | congruence |].
    rewrite Hv in Hv'. injection Hv' as <-.
    exists v. split; [exact Hv | lra].
Qed.

(** *** The rounding is to a nearest float *)

Lemma ilog2_upper (q : Q) : (0 < q)%Q -> (q < pow2 (ilog2 q + 1))%Q.
Proof.
  intros Hq. unfold ilog2.
  destruct (Qle_bool _ q) eqn:E.
  2:{ replace (_ - 1 + 1) with (Z.log2 (Qnum q) - Z.log2 (Z.pos (Qden q))) by lia.
      apply Qnot_le_lt. intros H. apply Qle_bool_iff in H. congruence. }
  clear E. destruct q as [a b]. cbn [Qnum Qden].
  assert (0 < a) as Ha by (unfold Qlt in Hq; simpl in Hq; lia).
  pose proof (Z.log2_spec a Ha) as [_ La].
  pose proof (Z.log2_spec (Z.pos b) ltac:(lia)) as [Lb _].
  pose proof (Z.log2_nonneg a) as Na.
  pose proof (Z.log2_nonneg (Z.pos b)) as Nb.
  set (la := Z.log2 a) in *. set (lb := Z.log2 (Z.pos b)) in *.
  replace (la - lb + 1) with (la + 1 - lb) by lia.
  unfold pow2. rewrite Qpower_minus by discriminate.
  fold (pow2 (la + 1)). fold (pow2 lb).
  rewrite (pow2_Z (la + 1)), (pow2_Z lb) by lia.
  rewrite (Qmake_Qdiv a b).
  assert (0 < inject_Z (2 ^ lb))%Q as P1.
  { change 0%Q with (inject_Z 0). rewrite <- Zlt_Qlt. lia. }
  assert (0 < inject_Z (Z.pos b))%Q as P2.
  { change 0%Q with (inject_Z 0). rewrite <- Zlt_Qlt. lia. }
  apply Qlt_shift_div_l; [exact P1 |].
  assert (inject_Z a * inject_Z (2 ^ lb)
          < inject_Z (2 ^ (la + 1)) * inject_Z (Z.pos b))%Q as K.
  { rewrite <- !inject_Z_mult, <- Zlt_Qlt. nia. }
  assert (inject_Z a / inject_Z (Z.pos b) * inject_Z (2 ^ lb)
          == inject_Z a * inject_Z (2 ^ lb) / inject_Z (Z.pos b))%Q as R.
  { field. intros Z0. rewrite Z0 in P2. apply (Qlt_irrefl 0). exact P2. }
  rewrite R. apply Qlt_shift_div_r; [exact P2 | exact K].
Qed.

(** Rounding to a whole number moves a rational by at most a half. *)
Lemma half_even_error (q : Q) :
  (inject_Z (half_even q) - (1 # 2) <= q)%Q /\
  (q <= inject_Z (half_even q) + (1 # 2))%Q.
Proof.
  pose proof (Qfloor_le q) as L. pose proof (Qlt_floor q) as U.
  rewrite inject_Z_plus in U. change (inject_Z 1) with 1%Q in U.
  unfold half_even. destruct (_ ?= _)%Q eqn:E.
  - apply Qeq_alt in E.
    destruct (Z.even _); rewrite ?inject_Z_plus; change (inject_Z 1) with 1%Q;
      split; lra.
  - apply Qlt_alt in E. split; lra.
  - apply Qgt_alt in E. rewrite inject_Z_plus. change (inject_Z 1) with 1%Q.
    split; lra.
Qed.

(** The float a positive rational rounds to, when finite, is a multiple of
    the spacing [2 ^ e] of the floats around the rational, it is at most
    half a spacing away, and its significand has at most 53 bits. *)
Lemma nearest_error (q v : Q) :
  (0 < q)%Q -> nearest q = Fin v ->
  let e := Z.max (ilog2 q - 52) (-1074) in
  exists m,
    (v == inject_Z m * pow2 e)%Q /\ 0 <= m <= 2 ^ 53 /\
    (v - pow2 e / 2 <= q)%Q /\ (q <= v + pow2 e / 2)%Q.
Proof.
  intros Hq H e. unfold nearest in H. cbv zeta in H. fold e in H.
  destruct (_ || _); [discriminate |]. injection H as <-.
  pose proof (pow2_pos e) as P.
  exists (half_even (q / pow2 e)). rewrite Qred_correct.
  split; [reflexivity |].
  destruct (half_even_error (q / pow2 e)) as [Lo Hi].
  assert (q == q / pow2 e * pow2 e)%Q as Eq by (field; lra).
  split.
  - split.
    + apply half_even_ge. apply Qle_shift_div_l; [exact P |].
      change (inject_Z 0) with 0%Q. lra.
    + apply half_even_le.
      apply Qle_shift_div_r; [exact P |].
      pose proof (ilog2_upper q Hq) as U.
      assert (ilog2 q + 1 <= 53 + e) as B by lia.
      apply pow2_le in B. rewrite (pow2_add 53 e), (pow2_Z 53) in B by lia. lra.
  - set (m := inject_Z (half_even (q / pow2 e))) in *.
    set (x := (q / pow2 e)%Q) in *.
    assert ((m - (1 # 2)) * pow2 e <= x * pow2 e)%Q as A
      by (apply Qmult_le_compat_r; lra).
    assert (x * pow2 e <= (m + (1 # 2)) * pow2 e)%Q as B
      by (apply Qmult_le_compat_r; lra).
    rewrite <- Eq in A, B.
    assert (pow2 e / 2 == (1 # 2) * pow2 e)%Q as Half by field.
    split; lra.
Qed.

(** *** Finite results *)

Lemma half_even_below (q : Q) (n : Z) :
  (q < inject_Z n - (1 # 2))%Q -> half_even q <= n - 1.
Proof.
  intros H. pose proof (Qfloor_le q) as L. pose proof (Qlt_floor q) as U.
  rewrite inject_Z_plus in U. change (inject_Z 1) with 1%Q in U.
  assert (Qfloor q < n) as F.
  { rewrite Zlt_Qlt. lra. }
  destruct (Z.eq_dec (Qfloor q) (n - 1)) as [E | E].
  - pose proof (PyFacts.inject_Z_sub n 1 _ eq_refl) as S.
    change (inject_Z 1) with 1%Q in S.
    assert (q - inject_Z (Qfloor q) < 1 # 2)%Q as K by (rewrite E; lra).
    unfold half_even. rewrite Qlt_alt in K. rewrite K. lia.
  - destruct (half_even_floor q) as [-> | ->]; lia.
Qed.

Lemma max_finite_pow2 :
  (max_finite == (inject_Z (2 ^ 53) - 1) * pow2 971)%Q /\
  (max_finite < pow2 1024)%Q /\ (pow2 1023 <= max_finite)%Q.
Proof.
  unfold max_finite. rewrite (pow2_Z 971), (pow2_Z 1024), (pow2_Z 1023) by lia.
  split; [| split].
  - rewrite inject_Z_mult. unfold Zminus. rewrite inject_Z_plus. reflexivity.
  - rewrite <- Zlt_Qlt. vm_compute. reflexivity.
  - rewrite <- Zle_Qle. vm_compute. discriminate.
Qed.

(** A finite result is within the range of the floats. *)
Lemma nearest_bounded (q v : Q) :
  (0 < q)%Q -> nearest q = Fin v -> (0 <= v)%Q /\ (v <= max_finite)%Q.
Proof.
  intros Hq H.
  destruct (nearest_error q v Hq H) as (m & Ev & [Hm0 Hm] & _).
  pose proof (nearest_nonneg q Hq) as Hnn. rewrite H in Hnn. simpl in Hnn.
  split; [exact Hnn |].
  unfold nearest in H. cbv zeta in H.
  set (e := Z.max (ilog2 q - 52) (-1074)) in *.
  destruct (971 <? e) eqn:E1; [discriminate |]. apply Z.ltb_ge in E1.
  cbn [orb] in H.
  destruct (max_finite_pow2) as (Emax & _ & Hlow).
  pose proof (pow2_pos e) as P.
  destruct (e =? 971) eqn:E2.
  - apply Z.eqb_eq in E2. cbn [andb] in H.
    destruct (2 ^ 53 <=? half_even (q / pow2 e)) eqn:E3; [discriminate |].
    apply Z.leb_gt in E3. injection H as Hv.
    assert (v == inject_Z (half_even (q / pow2 e)) * pow2 e)%Q as Hv'
      by (rewrite <- Hv; apply Qred_correct).
    rewrite Hv', Emax, E2.
    apply Qmult_le_compat_r; [| pose proof (pow2_pos 971); lra].
    rewrite E2 in E3.
    assert (half_even (q / pow2 971) <= 2 ^ 53 - 1) as B by lia.
    rewrite Zle_Qle in B. unfold Zminus in B. rewrite inject_Z_plus in B.
    exact B.
  - apply Z.eqb_neq in E2.
    assert (pow2 e <= pow2 970)%Q as B by (apply pow2_le; lia).
    apply Qle_trans with (pow2 1023); [| exact Hlow].
    replace 1023 with (53 + 970) by lia.
    rewrite pow2_add, (pow2_Z 53), Ev by lia.
    apply Qle_trans with (inject_Z (2 ^ 53) * pow2 e)%Q.
    + apply Qmult_le_compat_r; [rewrite <- Zle_Qle; exact Hm | lra].
    + apply Qmult_le_l; [reflexivity | exact B].
Qed.

(** A positive rational below the overflow threshold, half a spacing
    above the largest finite float, rounds to a finite float. *)
Lemma nearest_finite (q : Q) :
  (0 < q)%Q -> (q < max_finite + pow2 970)%Q -> exists v, nearest q = Fin v.
Proof.
  intros Hq Hb. unfold nearest.
  set (e := Z.max (ilog2 q - 52) (-1074)).
  destruct (max_finite_pow2) as (Emax & _ & _).
  assert (pow2 971 == 2 * pow2 970)%Q as D.
  { replace 971 with (1 + 970) by lia. rewrite pow2_add. reflexivity. }
  assert (max_finite + pow2 970 == (inject_Z (2 ^ 53) - (1 # 2)) * pow2 971)%Q as T.
  { rewrite Emax, D. ring. }
  pose proof (pow2_pos 970) as P970. pose proof (pow2_pos 971) as P971.
  assert (q < pow2 1024)%Q as Hq1024.
  { apply Qlt_le_trans with (max_finite + pow2 970)%Q; [exact Hb |].
    rewrite T. replace 1024 with (53 + 971) by lia.
    rewrite pow2_add, (pow2_Z 53) by lia.
    apply Qmult_le_compat_r; lra. }
  assert (ilog2 q < 1024) as L.
  { apply pow2_lt_inv. apply Qle_lt_trans with q; [apply ilog2_lower; exact Hq |].
    exact Hq1024. }
  replace ((971 <? e) || ((e =? 971) && (2 ^ 53 <=? half_even (q / pow2 e))))
    with false; [eauto |].
  symmetry. apply orb_false_iff. split; [apply Z.ltb_ge; lia |].
  apply andb_false_iff.
  destruct (Z.eq_dec e 971) as [E | E]; [right | left; apply Z.eqb_neq; exact E].
  apply Z.leb_gt. rewrite E.
  assert (half_even (q / pow2 971) <= 2 ^ 53 - 1); [| lia].
  apply half_even_below. apply Qlt_shift_div_r; [exact P971 |].
  rewrite <- T. exact Hb.
Qed.

Lemma rnd_bounded (q v : Q) :
  rnd q = Fin v -> (- max_finite <= v)%Q /\ (v <= max_finite)%Q.
Proof.
  assert (0 <= max_finite)%Q as M by (apply inject_Z_nonneg; vm_compute; discriminate).
  unfold rnd. destruct (q ?= 0)%Q eqn:E.
  - intros [= <-]. lra.
  - rewrite <- Qlt_alt in E. intros H.
    destruct (nearest (- q)) as [w | |] eqn:N; try discriminate.
    injection H as <-.
    destruct (nearest_bounded (- q) w ltac:(lra) N). lra.
  - rewrite <- Qgt_alt in E. intros H.
    destruct (nearest_bounded q v E H). lra.
Qed.

(** A rational within the range of the floats, or above it by less than
    half a spacing, rounds to a finite float. *)
Lemma rnd_finite (q : Q) :
  (- max_finite - pow2 970 < q)%Q -> (q < max_finite + pow2 970)%Q ->
  exists v, rnd q = Fin v.
Proof.
  intros Lo Hi. unfold rnd. destruct (q ?= 0)%Q eqn:E.
  - eauto.
  - rewrite <- Qlt_alt in E.
    destruct (nearest_finite (- q)) as [v ->]; [lra | lra |]. simpl. eauto.
  - rewrite <- Qgt_alt in E. apply nearest_finite; assumption.
Qed.

End Binary64Facts.


(** ** The interpreter's operations on floats *)

Module Float64Facts.
Import Binary64 Binary64Facts.

Lemma add_int (a b : Q) (z : Z) :
  (a + b == inject_Z z)%Q -> - 2 ^ 53 <= z <= 2 ^ 53 ->
  exists v, add (Fin a) (Fin b) = Fin v /\ (v == inject_Z z)%Q.
Proof.
  intros H Hz. destruct (rnd_int _ _ H Hz) as (v & Hv & E).
  exists v. split; [exact Hv | rewrite E; exact H].
Qed.

Lemma sub_int (a b : Q) (z : Z) :
  (a - b == inject_Z z)%Q -> - 2 ^ 53 <= z <= 2 ^ 53 ->
  exists v, sub (Fin a) (Fin b) = Fin v /\ (v == inject_Z z)%Q.
Proof. intros H Hz. apply add_int; assumption. Qed.

Lemma div60_int (a : Q) (z : Z) :
  (a == 60 * inject_Z z)%Q -> - 2 ^ 53 <= z <= 2 ^ 53 ->
  exists v, div60 (Fin a) = Fin v /\ (v == inject_Z z)%Q.
Proof.
  intros H Hz.
  assert (a / 60 == inject_Z z)%Q as H' by (rewrite H; field).
  destruct (rnd_int _ _ H' Hz) as (v & Hv & E).
  exists v. split; [exact Hv | rewrite E; exact H'].
Qed.

Lemma max_cases (a b : float) : max a b = a \/ (max a b = b /\ gt b a = true).
Proof. unfold max. destruct (gt b a); auto. Qed.

Lemma gt_nonneg (x : float) : gt x (Fin 0) = true -> nonneg x.
Proof.
  destruct x as [q | [] |]; simpl; try discriminate; [| reflexivity].
  destruct (Qlt_le_dec 0 q); [intros _; lra | discriminate].
Qed.

(** [max(0, x)] is a number and is not negative, whatever [x] is. *)
Lemma max_zero_nonneg (x : float) : nonneg (max (Fin 0) x).
Proof.
  destruct (max_cases (Fin 0) x) as [-> | [-> H]].
  - simpl. lra.
  - apply gt_nonneg. exact H.
Qed.

Lemma half_even_nonneg (q : Q) : (0 <= q)%Q -> 0 <= half_even q.
Proof. intros H. apply half_even_ge. exact H. Qed.

Lemma round1_keeps_sign (x : float) : nonneg x -> nonneg (round1 x).
Proof.
  destruct x as [q | s |]; simpl; auto. intros Hq. apply rnd_nonneg.
  apply Qle_shift_div_l; [reflexivity |].
  assert (0 <= half_even (q * 10)) as H by (apply half_even_nonneg; lra).
  apply inject_Z_nonneg in H. lra.
Qed.

Lemma round1_of_zero (e : Q) : (e == 0)%Q -> round1 (Fin e) = Fin 0.
Proof.
  intros He. simpl.
  assert (half_even (e * 10) = 0) as H.
  { apply half_even_int. rewrite He. reflexivity. }
  rewrite H. reflexivity.
Qed.

(** The largest of a float that is a scheduled minute and anything else
    is, when finite, at least the scheduled minute. *)
Lemma max_sched (x : float) (sched a : Q) :
  max x (Fin sched) = Fin a -> (sched <= a)%Q.
Proof.
  unfold max. destruct (gt (Fin sched) x) eqn:G.
  - intros [= ->]. lra.
  - intros ->. simpl in G. destruct (Qlt_le_dec a sched); [discriminate | assumption].
Qed.

Lemma max_value (p sched a : Q) :
  max (Fin p) (Fin sched) = Fin a -> (a == Qmax p sched)%Q.
Proof.
  unfold max. simpl. destruct (Qlt_le_dec p sched) as [H | H]; intros [= <-].
  - symmetry. apply Q.max_r. lra.
  - symmetry. apply Q.max_l. exact H.
Qed.

End Float64Facts.

(** ** Rendering a float as a clock time *)

Module Clock64Facts.
Import Binary64 Binary64Facts Float64Facts.

Lemma int_nonneg (q : Q) : (0 <= q)%Q -> Py.int q = Qfloor q.
Proof.
  intros H. unfold Py.int. destruct (Qlt_le_dec q 0); [lra | reflexivity].
Qed.

Lemma int_ge (q : Q) (n : Z) : 0 <= n -> (inject_Z n <= q)%Q -> n <= Py.int q.
Proof.
  intros Hn H. pose proof (inject_Z_nonneg n Hn).
  rewrite int_nonneg by lra.
  apply Qfloor_resp_le in H. rewrite Qfloor_Z in H. exact H.
Qed.

(** The whole hours of a finite non-negative [a], and the exact remainder. *)
Lemma fmod60_bounds (a : Q) :
  (0 <= a)%Q ->
  let k := Qfloor (a / 60) in
  0 <= k /\ (fmod60 a == a - 60 * inject_Z k)%Q /\
  (0 <= fmod60 a)%Q /\ (fmod60 a < 60)%Q /\
  fmod60 a = Py.mod_ a 60.
Proof.
  intros Ha k.
  assert (0 <= a / 60)%Q as Hd by (apply Qle_shift_div_l; [reflexivity | lra]).
  assert (fmod60 a = Py.mod_ a 60) as E.
  { unfold fmod60, Py.mod_. rewrite int_nonneg by exact Hd. reflexivity. }
  pose proof (Qfloor_le (a / 60)) as L. pose proof (Qlt_floor (a / 60)) as U.
  fold k in L, U. rewrite inject_Z_plus in U. change (inject_Z 1) with 1%Q in U.
  assert (a == 60 * (a / 60))%Q as A by field.
  split; [apply PyFacts.Qfloor_nonneg; exact Hd |].
  rewrite E. unfold Py.mod_. fold k.
  split; [reflexivity |]. split; [lra |]. split; [lra | reflexivity].
Qed.

Lemma floor_int (v : Q) (k : Z) : (v == inject_Z k)%Q -> Qfloor v = k.
Proof. intros H. rewrite H. apply Qfloor_Z. Qed.

(** Below [2 ^ 53] minutes the quotient and the remainder are exact. *)
Lemma divmod60_exact (a : Q) :
  (0 <= a)%Q -> (a < inject_Z (2 ^ 53))%Q ->
  exists v, floordiv60 (Fin a) = Fin v /\ (v == inject_Z (Qfloor (a / 60)))%Q /\
            mod60 (Fin a) = Fin (Py.mod_ a 60).
Proof.
  intros Ha Hb.
  destruct (fmod60_bounds a Ha) as (Hk & Em & M0 & M60 & Emod).
  set (k := Qfloor (a / 60)) in *.
  assert (60 * k < 2 ^ 53) as Hk53.
  { rewrite Zlt_Qlt, inject_Z_mult. change (inject_Z 60) with 60%Q. lra. }
  destruct (sub_int a (fmod60 a) (60 * k)) as (v1 & Hv1 & E1).
  { rewrite inject_Z_mult. change (inject_Z 60) with 60%Q. lra. }
  { lia. }
  destruct (div60_int v1 k) as (v2 & Hv2 & E2).
  { rewrite E1, inject_Z_mult. reflexivity. }
  { lia. }
  unfold floordiv60, mod60, divmod60. rewrite Hv1, Hv2.
  destruct (Qlt_le_dec (fmod60 a) 0) as [? | _]; [lra |].
  cbn [fst snd]. rewrite <- Emod.
  destruct (is_zero (Fin v2)) eqn:Z.
  - exists 0%Q. split; [reflexivity |]. split; [| reflexivity].
    simpl in Z. apply Qeq_bool_iff in Z. rewrite <- E2, Z. reflexivity.
  - cbn [floor]. rewrite (floor_int v2 k E2).
    destruct (sub_int v2 (inject_Z k) 0) as (w & Hw & Ew).
    { change (inject_Z 0) with 0%Q. lra. }
    { lia. }
    rewrite Hw. cbn [gt].
    change (inject_Z 0) with 0%Q in Ew.
    destruct (Qlt_le_dec (1 # 2) w) as [? | _]; [lra |].
    exists (inject_Z k). split; [reflexivity |]. split; reflexivity.
Qed.

(** Below [2 ^ 53] minutes a float is rendered as the rational it denotes
    is rendered in exact arithmetic. *)
Lemma render_exact (a : Q) :
  (0 <= a)%Q -> (a < inject_Z (2 ^ 53))%Q ->
  Timetable64.minutes_to_time_str (Fin a) = inr (Timetable.minutes_to_time_str a).
Proof.
  intros Ha Hb. destruct (divmod60_exact a Ha Hb) as (v & Hv & Ev & Hm).
  unfold Timetable64.minutes_to_time_str, Timetable.minutes_to_time_str.
  rewrite Hv, Hm. cbn [int mbind result_bind].
  assert (0 <= a / 60)%Q as Hd by (apply Qle_shift_div_l; [reflexivity | lra]).
  pose proof (PyFacts.Qfloor_nonneg _ Hd) as Hk.
  assert (Py.int v = Py.int (Py.floordiv a 60)) as ->; [| reflexivity].
  unfold Py.floordiv.
  pose proof (inject_Z_nonneg _ Hk) as Hk'.
  rewrite !int_nonneg by lra. rewrite Qfloor_Z. apply floor_int. exact Ev.
Qed.

(** A whole number of minutes below [2 ^ 53] is rendered as integer
    division renders it. *)
Lemma render_int (z : Z) :
  0 <= z < 2 ^ 53 ->
  Timetable64.minutes_to_time_str (Fin (inject_Z z))
  = inr (Py.format_02d (z / 60) +:+ ":" +:+ Py.format_02d (z mod 60)).
Proof.
  intros Hz. pose proof (inject_Z_nonneg z ltac:(lia)) as Hz'.
  rewrite render_exact; [| exact Hz' | rewrite <- Zlt_Qlt; lia].
  unfold Timetable.minutes_to_time_str.
  rewrite PyFacts.int_floordiv_60, PyFacts.int_mod_60, Qfloor_Z by exact Hz'.
  reflexivity.
Qed.

Lemma clock_minutes_format (h m : Z) :
  0 <= h -> 0 <= m ->
  Timetable.clock_minutes (Py.format_02d h +:+ ":" +:+ Py.format_02d m)
  = Some (h * 60 + m).
Proof.
  intros Hh Hm. unfold Timetable.clock_minutes.
  rewrite ClockFacts.split_colon_app by (apply ClockFacts.format_02d_no_colon; exact Hh).
  rewrite !ClockFacts.read_format_02d by assumption. reflexivity.
Qed.

Lemma int_inr (x : float) (n : Z) : int x = inr n -> exists q, x = Fin q /\ n = Py.int q.
Proof. destruct x; simpl; intros [= <-]. eauto. Qed.

(** At and above [2 ^ 53] minutes the hours shown are not exact, but they
    are at least [2 ^ 46]. *)
Lemma floordiv60_large (a : Q) (n : Z) :
  (inject_Z (2 ^ 53) <= a)%Q -> int (floordiv60 (Fin a)) = inr n -> 2 ^ 46 <= n.
Proof.
  intros Hb H.
  assert (0 <= a)%Q as Ha.
  { apply Qle_trans with (inject_Z (2 ^ 53)); [discriminate | exact Hb]. }
  destruct (fmod60_bounds a Ha) as (Hk & Em & M0 & M60 & Emod).
  apply int_inr in H as (q & Hq & ->). apply int_ge; [lia |].
  revert Hq. unfold floordiv60, divmod60.
  destruct (Qlt_le_dec (fmod60 a) 0) as [? | _]; [lra |].
  cbn [fst]. change (sub (Fin a) (Fin (fmod60 a))) with (rnd (a + - fmod60 a)).
  destruct (rnd_ge (a + - fmod60 a) (2 ^ 52)) as [-> | (v1 & -> & G1)].
  { apply Qle_trans with (inject_Z (2 ^ 53) - 60)%Q; [discriminate | lra]. }
  { lia. }
  { cbn. discriminate. }
  cbn [div60].
  destruct (rnd_ge (v1 / 60) (2 ^ 46)) as [-> | (v2 & -> & G2)].
  { apply Qle_shift_div_l; [reflexivity |].
    apply Qle_trans with (inject_Z (2 ^ 52)); [discriminate | exact G1]. }
  { lia. }
  { cbn. discriminate. }
  assert (0 < inject_Z (2 ^ 46))%Q as P46 by reflexivity.
  replace (is_zero (Fin v2)) with false.
  2:{ symmetry. simpl. destruct (Qeq_bool v2 0) eqn:Z; [| reflexivity].
      apply Qeq_bool_iff in Z. lra. }
  cbn [floor].
  assert (2 ^ 46 <= Qfloor v2) as F.
  { apply Qfloor_resp_le in G2. rewrite Qfloor_Z in G2. exact G2. }
  destruct (gt _ _).
  - cbn [add].
    destruct (rnd_ge (inject_Z (Qfloor v2) + 1) (2 ^ 46)) as [-> | (v3 & -> & G3)].
    { rewrite Zle_Qle in F. lra. }
    { lia. }
    { discriminate. }
    intros [= <-]. exact G3.
  - intros [= <-]. rewrite <- Zle_Qle. exact F.
Qed.

(** Every finite float that is not negative can be rendered. *)
Lemma render_finite (a : Q) :
  (0 <= a)%Q -> (a <= max_finite)%Q ->
  exists s, Timetable64.minutes_to_time_str (Fin a) = inr s.
Proof.
  intros Ha Hb.
  destruct (fmod60_bounds a Ha) as (Hk & Em & M0 & M60 & _).
  assert (1 < pow2 970)%Q as P.
  { apply Qlt_le_trans with (pow2 1); [reflexivity | apply pow2_le; lia]. }
  assert (0 <= a + - fmod60 a)%Q as D0.
  { rewrite Em. pose proof (inject_Z_nonneg _ Hk). lra. }
  destruct (rnd_finite (a + - fmod60 a)) as [v1 Hv1]; [lra | lra |].
  pose proof (rnd_bounded _ _ Hv1) as [_ B1].
  pose proof (rnd_nonneg _ D0) as N1. rewrite Hv1 in N1. simpl in N1.
  assert (0 <= v1 / 60)%Q as D1 by (apply Qle_shift_div_l; [reflexivity | lra]).
  assert (v1 / 60 <= v1)%Q as D1' by (apply Qle_shift_div_r; [reflexivity | lra]).
  destruct (rnd_finite (v1 / 60)) as [v2 Hv2]; [lra | lra |].
  pose proof (rnd_bounded _ _ Hv2) as [_ B2].
  pose proof (rnd_nonneg _ D1) as N2. rewrite Hv2 in N2. simpl in N2.
  pose proof (Qfloor_le v2) as F2.
  pose proof (inject_Z_nonneg _ (PyFacts.Qfloor_nonneg v2 N2)) as F0.
  destruct (rnd_finite (inject_Z (Qfloor v2) + 1)) as [v3 Hv3]; [lra | lra |].
  assert (exists v, floordiv60 (Fin a) = Fin v) as [v Hv].
  { unfold floordiv60, divmod60.
    change (sub (Fin a) (Fin (fmod60 a))) with (rnd (a + - fmod60 a)).
    rewrite Hv1. cbn [div60]. rewrite Hv2.
    destruct (Qlt_le_dec (fmod60 a) 0) as [? | _]; [lra |]. cbn [fst].
    destruct (is_zero (Fin v2)); [eauto |]. cbn [floor].
    destruct (gt _ _); [| eauto]. cbn [add]. rewrite Hv3. eauto. }
  assert (mod60 (Fin a) = Fin (fmod60 a)) as Hm.
  { unfold mod60, divmod60.
    destruct (Qlt_le_dec (fmod60 a) 0) as [? | _]; [lra | reflexivity]. }
  unfold Timetable64.minutes_to_time_str. rewrite Hv, Hm.
  cbn [int mbind result_bind]. eauto.
Qed.

(** What a rendered float reads back as: never less than a whole number of
    minutes it is not below, and its whole minutes exactly when it is below
    [2 ^ 53]. *)
Lemma render_reads (a : Q) (s : string) (z : Z) :
  0 <= z <= 2 ^ 46 -> (inject_Z z <= a)%Q ->
  Timetable64.minutes_to_time_str (Fin a) = inr s ->
  exists shown,
    Timetable.clock_minutes s = Some shown /\ z <= shown /\
    ((a < inject_Z (2 ^ 53))%Q -> shown = Qfloor a).
Proof.
  intros Hz Hle H.
  assert (0 <= a)%Q as Ha by (pose proof (inject_Z_nonneg z ltac:(lia)); lra).
  destruct (Qlt_le_dec a (inject_Z (2 ^ 53))) as [Hb | Hb].
  - rewrite (render_exact a Ha Hb) in H. injection H as <-.
    exists (Qfloor a). split; [apply ClockFacts.clock_minutes_render; exact Ha |].
    split; [| reflexivity].
    apply Qfloor_resp_le in Hle. rewrite Qfloor_Z in Hle. exact Hle.
  - unfold Timetable64.minutes_to_time_str in H.
    destruct (int (floordiv60 (Fin a))) as [e | hours] eqn:Hh; [discriminate |].
    apply floordiv60_large in Hh; [| exact Hb].
    destruct (fmod60_bounds a Ha) as (Hk & Em & M0 & M60 & Emod).
    assert (mod60 (Fin a) = Fin (fmod60 a)) as Hm.
    { unfold mod60, divmod60.
      destruct (Qlt_le_dec (fmod60 a) 0) as [? | _]; [lra | reflexivity]. }
    rewrite Hm in H. cbn [int mbind result_bind] in H. injection H as <-.
    assert (0 <= Py.int (fmod60 a)) as Hmin.
    { rewrite int_nonneg by exact M0. apply PyFacts.Qfloor_nonneg. exact M0. }
    exists (hours * 60 + Py.int (fmod60 a)).
    split; [apply clock_minutes_format; lia |].
    split; [lia |]. intros Hlt. lra.
Qed.

End Clock64Facts.

(** ** The projection loop *)

Module RunFacts.
Import Timetable.

Lemma for_each_app {S : Type} (body : nat -> S -> result S)
    (l1 l2 : list nat) (st : S) :
  for_each body (l1 ++ l2) st = (st' ← for_each body l1 st; for_each body l2 st').
Proof.
  revert st. induction l1 as [| i l1 IH]; intros st; simpl.
  - reflexivity.
  - destruct (body i st) as [e | st']; simpl; [reflexivity | apply IH].
Qed.

Lemma py_range_from_one (n : nat) : py_range 1 (S n) = seq 1 n.
Proof. unfold py_range. rewrite Nat.sub_succ, Nat.sub_0_r. reflexivity. Qed.

Lemma bind_inr {A B : Type} (m : result A) (f : A -> result B) (b : B) :
  (x ← m; f x) = inr b -> exists a, m = inr a /\ f a = inr b.
Proof. destruct m as [e | a]; simpl; [discriminate | eauto]. Qed.

Section Run.

Variable World : Type.
Variable directions : World -> string -> string -> response * World.
Variable sleep : World -> World.

Abbreviation lookup := (get_travel_time World directions).
Abbreviation step := (loop_body World directions sleep).
Abbreviation run := (run_upto World directions sleep).
Abbreviation project := (predict_route_times World directions sleep).

Implicit Types (stops timetable : list string) (st : loop_state World)
  (c : client World) (i n : nat).

Lemma run_zero stops timetable c :
  run stops timetable c 0 = initial_state World stops timetable c.
Proof.
  unfold run_upto. rewrite py_range_from_one.
  destruct (initial_state _ _ _ _); reflexivity.
Qed.

Lemma run_succ stops timetable c n :
  run stops timetable c (S n)
  = (st ← run stops timetable c n; step stops timetable (S n) st).
Proof.
  unfold run_upto. rewrite !py_range_from_one, seq_S.
  destruct (initial_state _ _ _ _) as [e | st0]; [reflexivity |].
  cbn [mbind result_bind]. rewrite for_each_app.
  destruct (for_each _ _ st0) as [e | st]; [reflexivity |].
  cbn [mbind result_bind for_each]. change (1 + n)%nat with (S n).
  destruct (loop_body _ _ _ _ _ _ _); reflexivity.
Qed.

(** The call is the loop run over every entry after the first. *)
Lemma project_run stops timetable c :
  project stops timetable c
  = (st ← run stops timetable c (length stops - 1); inr (results st, gmaps st)).
Proof.
  unfold predict_route_times, run_upto. rewrite py_range_from_one.
  unfold py_range. destruct (initial_state _ _ _ _); reflexivity.
Qed.

Lemma run_inr_initial stops timetable c n st :
  run stops timetable c n = inr st ->
  exists st0, initial_state World stops timetable c = inr st0.
Proof.
  unfold run_upto. destruct (initial_state _ _ _ _); [discriminate | eauto].
Qed.

Lemma initial_state_inr stops timetable c st0 :
  initial_state World stops timetable c = inr st0 ->
  exists stop0 t0 tobj,
    stops !! 0%nat = Some stop0 /\ timetable !! 0%nat = Some t0 /\
    parse_time t0 = inr tobj /\
    st0 = {| results := [ {| Stop := stop0; Timetable := t0;
                             Extra_Traffic := Num 0;
                             Predicted_Arrival := t0 |} ];
             last_used_stop := stop0;
             last_used_time := inject_Z (time_to_minutes tobj);
             gmaps := c |}.
Proof.
  unfold initial_state, getitem.
  destruct (stops !! 0%nat) as [stop0 |]; simpl; [| discriminate].
  destruct (timetable !! 0%nat) as [t0 |]; simpl; [| discriminate].
  destruct (parse_time t0) as [| tobj] eqn:Hp; simpl; [discriminate |].
  intros [= <-]. exists stop0, t0, tobj. repeat split; auto.
Qed.

(** *** The three ways through the loop body *)

Lemma step_unserved stops timetable i st s :
  stops !! i = Some s -> timetable !! i = Some "x" ->
  step stops timetable i st
  = inr {| results := results st ++
             [ {| Stop := s; Timetable := "-"; Extra_Traffic := Str "-";
                  Predicted_Arrival := "-" |} ];
           last_used_stop := last_used_stop st;
           last_used_time := last_used_time st;
           gmaps := gmaps st |}.
Proof.
  intros Hs Ht. unfold loop_body, getitem. rewrite Hs, Ht. simpl.
  destruct (decide ("x" <> "x")) as [H | _]; [congruence | reflexivity].
Qed.

Lemma step_failed stops timetable i st s t c' :
  stops !! i = Some s -> timetable !! i = Some t -> t <> "x" ->
  lookup (gmaps st) (last_used_stop st) s = (None, c') ->
  step stops timetable i st
  = inr {| results := results st;
           last_used_stop := last_used_stop st;
           last_used_time := last_used_time st;
           gmaps := c' |}.
Proof.
  intros Hs Ht Hx Hl. unfold loop_body, getitem. rewrite Hs, Ht. simpl.
  destruct (decide (t <> "x")) as [_ | H]; [| contradiction].
  rewrite Hl. reflexivity.
Qed.

Lemma step_served stops timetable i st s t tm c' tobj lst :
  stops !! i = Some s -> timetable !! i = Some t -> t <> "x" ->
  lookup (gmaps st) (last_used_stop st) s = (Some tm, c') ->
  parse_time t = inr tobj ->
  last_scheduled timetable i = inr lst ->
  step stops timetable i st
  = inr {| results := results st ++
             [ {| Stop := s; Timetable := t;
                  Extra_Traffic :=
                    Num (Py.round1 (extra_traffic (last_used_time st) tm
                                      (time_to_minutes tobj) lst));
                  Predicted_Arrival :=
                    minutes_to_time_str
                      (actual_arrival (last_used_time st) tm (time_to_minutes tobj)) |} ];
           last_used_stop := s;
           last_used_time := actual_arrival (last_used_time st) tm (time_to_minutes tobj);
           gmaps := {| world := sleep (world c'); requests := requests c' |} |}.
Proof.
  intros Hs Ht Hx Hl Hp Hb. unfold loop_body, getitem. rewrite Hs, Ht. simpl.
  destruct (decide (t <> "x")) as [_ | H]; [| contradiction].
  rewrite Hl, Hp. simpl. rewrite Hb. simpl.
  unfold extra_traffic, actual_arrival. destruct lst; reflexivity.
Qed.

(** Every completed iteration went one of the three ways. *)
Lemma step_inv stops timetable i st st' :
  step stops timetable i st = inr st' ->
  exists s t,
    stops !! i = Some s /\ timetable !! i = Some t /\
    ((t = "x" /\
      st' = {| results := results st ++
                 [ {| Stop := s; Timetable := "-"; Extra_Traffic := Str "-";
                      Predicted_Arrival := "-" |} ];
               last_used_stop := last_used_stop st;
               last_used_time := last_used_time st;
               gmaps := gmaps st |})
     \/ (t <> "x" /\ exists c',
          lookup (gmaps st) (last_used_stop st) s = (None, c') /\
          st' = {| results := results st;
                   last_used_stop := last_used_stop st;
                   last_used_time := last_used_time st;
                   gmaps := c' |})
     \/ (t <> "x" /\ exists tm c' tobj lst,
          lookup (gmaps st) (last_used_stop st) s = (Some tm, c') /\
          parse_time t = inr tobj /\
          last_scheduled timetable i = inr lst /\
          st' = {| results := results st ++
                     [ {| Stop := s; Timetable := t;
                          Extra_Traffic :=
                            Num (Py.round1 (extra_traffic (last_used_time st) tm
                                              (time_to_minutes tobj) lst));
                          Predicted_Arrival :=
                            minutes_to_time_str
                              (actual_arrival (last_used_time st) tm
                                 (time_to_minutes tobj)) |} ];
                   last_used_stop := s;
                   last_used_time :=
                     actual_arrival (last_used_time st) tm (time_to_minutes tobj);
                   gmaps := {| world := sleep (world c');
                               requests := requests c' |} |})).
Proof.
  intros H.
  destruct (stops !! i) as [s |] eqn:Hs;
    [| unfold loop_body, getitem in H; rewrite Hs in H; discriminate].
  destruct (timetable !! i) as [t |] eqn:Ht;
    [| unfold loop_body, getitem in H; rewrite Hs, Ht in H; discriminate].
  exists s, t. split; [reflexivity |]. split; [reflexivity |].
  destruct (decide (t = "x")) as [-> | Hx].
  - left. split; [reflexivity |].
    rewrite (step_unserved _ _ _ _ _ Hs Ht) in H. congruence.
  - right.
    destruct (lookup (gmaps st) (last_used_stop st) s) as [[tm |] c'] eqn:Hl.
    + right. split; [exact Hx |].
      destruct (parse_time t) as [e | tobj] eqn:Hp.
      { unfold loop_body, getitem in H. rewrite Hs, Ht in H. simpl in H.
        destruct (decide (t <> "x")); [| contradiction].
        rewrite Hl, Hp in H. discriminate. }
      destruct (last_scheduled timetable i) as [e | lst] eqn:Hb.
      { unfold loop_body, getitem in H. rewrite Hs, Ht in H. simpl in H.
        destruct (decide (t <> "x")); [| contradiction].
        rewrite Hl, Hp in H. simpl in H. rewrite Hb in H. discriminate. }
      rewrite (step_served _ _ _ _ _ _ _ _ _ _ Hs Ht Hx Hl Hp Hb) in H.
      exists tm, c', tobj, lst. repeat split; congruence.
    + left. split; [exact Hx |].
      rewrite (step_failed _ _ _ _ _ _ _ Hs Ht Hx Hl) in H.
      exists c'. split; congruence.
Qed.

(** One request goes out per lookup. *)
Lemma lookup_requests c origin destination o c' :
  lookup c origin destination = (o, c') ->
  requests c' = requests c ++ [(origin, destination)].
Proof.
  unfold get_travel_time. destruct (directions _ _ _) as [resp w].
  destruct resp as [| [| r ?]]; try (intros [= _ <-]; reflexivity).
  destruct (legs r) as [| lg ?]; try (intros [= _ <-]; reflexivity).
  destruct (duration_in_traffic lg); intros [= _ <-]; reflexivity.
Qed.

(** *** The backward scan *)

Lemma last_scheduled_some timetable i lst :
  last_scheduled timetable i = inr (Some lst) ->
  exists j tj tobj,
    (j < i)%nat /\ timetable !! j = Some tj /\ tj <> "x" /\
    parse_time tj = inr tobj /\ lst = time_to_minutes tobj /\
    forall k, (j < k < i)%nat -> timetable !! k = Some "x".
Proof.
  induction i as [| i IH]; simpl; [discriminate |].
  unfold getitem. destruct (timetable !! i) as [t |] eqn:Ht; simpl; [| discriminate].
  destruct (decide (t <> "x")) as [Hx | Hx].
  - destruct (parse_time t) as [| tobj] eqn:Hp; simpl; [discriminate |].
    intros [= <-]. exists i, t, tobj. repeat split; auto. intros k Hk. lia.
  - intros H. destruct (IH H) as (j & tj & tobj & Hj & Htj & Hxj & Hpj & Hl & Hbetween).
    exists j, tj, tobj. repeat split; auto.
    intros k Hk. destruct (decide (k = i)) as [-> | Hne].
    + rewrite Ht. f_equal. destruct (decide (t = "x")); [assumption | contradiction].
    + apply Hbetween. lia.
Qed.

Lemma last_scheduled_none timetable i :
  last_scheduled timetable i = inr None ->
  forall k, (k < i)%nat -> timetable !! k = Some "x".
Proof.
  induction i as [| i IH]; simpl; [intros _ k Hk; lia |].
  unfold getitem. destruct (timetable !! i) as [t |] eqn:Ht; simpl; [| discriminate].
  destruct (decide (t <> "x")) as [Hx | Hx].
  - destruct (parse_time t); simpl; discriminate.
  - intros H k Hk. destruct (decide (k = i)) as [-> | Hne].
    + rewrite Ht. f_equal. destruct (decide (t = "x")); [assumption | contradiction].
    + apply (IH H). lia.
Qed.

Lemma last_scheduled_total timetable i :
  well_formed timetable -> (i <= length timetable)%nat ->
  exists lst, last_scheduled timetable i = inr lst.
Proof.
  intros Hwf. induction i as [| i IH]; intros Hi; simpl; [eauto |].
  destruct (lookup_lt_is_Some_2 timetable i ltac:(lia)) as [t Ht].
  unfold getitem. rewrite Ht. simpl.
  destruct (decide (t <> "x")) as [Hx | Hx].
  - unfold well_formed in Hwf. rewrite Forall_lookup in Hwf.
    destruct (Hwf i t Ht) as [-> | [tobj Hp]]; [contradiction |].
    rewrite Hp. simpl. eauto.
  - apply IH. lia.
Qed.

End Run.
End RunFacts.

(** ** The projection loop in binary64 *)

Module Run64Facts.
Import Timetable Timetable64 RunFacts.

Lemma render_inr (x : Binary64.float) (s : string) :
  minutes_to_time_str x = inr s -> exists a, x = Binary64.Fin a.
Proof.
  destruct x as [a | ? |]; [eauto | discriminate | discriminate].
Qed.

Section Run.

Variable World : Type.
Variable directions : World -> string -> string -> response * World.
Variable sleep : World -> World.

Abbreviation lookup := (get_travel_time World directions).
Abbreviation step := (loop_body World directions sleep).
Abbreviation run := (run_upto World directions sleep).
Abbreviation project := (predict_route_times World directions sleep).

Implicit Types (stops timetable : list string) (st : loop_state World)
  (c : client World) (i n : nat).

Lemma run64_zero stops timetable c :
  run stops timetable c 0 = initial_state World stops timetable c.
Proof.
  unfold run_upto. rewrite py_range_from_one.
  destruct (initial_state _ _ _ _); reflexivity.
Qed.

Lemma run64_succ stops timetable c n :
  run stops timetable c (S n)
  = (st ← run stops timetable c n; step stops timetable (S n) st).
Proof.
  unfold run_upto. rewrite !py_range_from_one, seq_S.
  destruct (initial_state _ _ _ _) as [e | st0]; [reflexivity |].
  cbn [mbind result_bind]. rewrite for_each_app.
  destruct (for_each _ _ st0) as [e | st]; [reflexivity |].
  cbn [mbind result_bind for_each]. change (1 + n)%nat with (S n).
  destruct (loop_body _ _ _ _ _ _ _); reflexivity.
Qed.

(** The call is the loop run over every entry after the first. *)
Lemma project64_run stops timetable c :
  project stops timetable c
  = (st ← run stops timetable c (length stops - 1); inr (results st, gmaps st)).
Proof.
  unfold predict_route_times, run_upto. rewrite py_range_from_one.
  unfold py_range. destruct (initial_state _ _ _ _); reflexivity.
Qed.

Lemma run_initial stops timetable c stop0 t0 tobj :
  stops !! 0%nat = Some stop0 -> timetable !! 0%nat = Some t0 ->
  parse_time t0 = inr tobj ->
  run stops timetable c 0
  = inr {| results := [ {| Stop := stop0; Timetable := t0;
                           Extra_Traffic := Num (Binary64.Fin 0);
                           Predicted_Arrival := t0 |} ];
           last_used_stop := stop0;
           last_used_time := Binary64.Fin (inject_Z (time_to_minutes tobj));
           gmaps := c |}.
Proof.
  intros Hs Ht Hp. rewrite run64_zero. unfold initial_state, getitem.
  rewrite Hs, Ht. cbn. rewrite Hp. reflexivity.
Qed.

(** *** The three ways through the loop body *)

Lemma step64_unserved stops timetable i st s :
  stops !! i = Some s -> timetable !! i = Some "x" ->
  step stops timetable i st
  = inr {| results := results st ++
             [ {| Stop := s; Timetable := "-"; Extra_Traffic := Str "-";
                  Predicted_Arrival := "-" |} ];
           last_used_stop := last_used_stop st;
           last_used_time := last_used_time st;
           gmaps := gmaps st |}.
Proof.
  intros Hs Ht. unfold loop_body, getitem. rewrite Hs, Ht. simpl.
  destruct (decide ("x" <> "x")) as [H | _]; [congruence | reflexivity].
Qed.

Lemma step64_failed stops timetable i st s t c' :
  stops !! i = Some s -> timetable !! i = Some t -> t <> "x" ->
  lookup (gmaps st) (last_used_stop st) s = (None, c') ->
  step stops timetable i st
  = inr {| results := results st;
           last_used_stop := last_used_stop st;
           last_used_time := last_used_time st;
           gmaps := c' |}.
Proof.
  intros Hs Ht Hx Hl. unfold loop_body, getitem. rewrite Hs, Ht. simpl.
  destruct (decide (t <> "x")) as [_ | H]; [| contradiction].
  rewrite Hl. reflexivity.
Qed.

(** A served entry with an answered lookup: the row is appended once the
    arrival has been rendered. *)
Lemma step64_served stops timetable i st s t tm c' tobj lst :
  stops !! i = Some s -> timetable !! i = Some t -> t <> "x" ->
  lookup (gmaps st) (last_used_stop st) s = (Some tm, c') ->
  parse_time t = inr tobj ->
  last_scheduled timetable i = inr lst ->
  step stops timetable i st
  = (predicted_arrival ←
       minutes_to_time_str
         (actual_arrival (last_used_time st) tm (time_to_minutes tobj));
     inr {| results := results st ++
              [ {| Stop := s; Timetable := t;
                   Extra_Traffic :=
                     Num (Binary64.round1
                            (extra_traffic (last_used_time st) tm
                               (time_to_minutes tobj) lst));
                   Predicted_Arrival := predicted_arrival |} ];
            last_used_stop := s;
            last_used_time :=
              actual_arrival (last_used_time st) tm (time_to_minutes tobj);
            gmaps := {| world := sleep (world c'); requests := requests c' |} |}).
Proof.
  intros Hs Ht Hx Hl Hp Hb. unfold loop_body, getitem. rewrite Hs, Ht. simpl.
  destruct (decide (t <> "x")) as [_ | H]; [| contradiction].
  rewrite Hl, Hp. simpl. rewrite Hb. reflexivity.
Qed.

(** The same, one level up: what the run does at a served entry of a
    well-formed timetable. *)
Lemma served_entry stops timetable c n st s t tobj tm c' :
  well_formed timetable ->
  run stops timetable c n = inr st ->
  stops !! S n = Some s -> timetable !! S n = Some t -> t <> "x" ->
  lookup (gmaps st) (last_used_stop st) s = (Some tm, c') ->
  parse_time t = inr tobj ->
  exists lst,
    last_scheduled timetable (S n) = inr lst /\
    run stops timetable c (S n)
    = (predicted_arrival ←
         minutes_to_time_str
           (actual_arrival (last_used_time st) tm (time_to_minutes tobj));
       inr {| results := results st ++
                [ {| Stop := s; Timetable := t;
                     Extra_Traffic :=
                       Num (Binary64.round1
                              (extra_traffic (last_used_time st) tm
                                 (time_to_minutes tobj) lst));
                     Predicted_Arrival := predicted_arrival |} ];
              last_used_stop := s;
              last_used_time :=
                actual_arrival (last_used_time st) tm (time_to_minutes tobj);
              gmaps := {| world := sleep (world c'); requests := requests c' |} |}).
Proof.
  intros Hwf Hrun Hs Ht Hx Hl Hp.
  destruct (last_scheduled_total timetable (S n) Hwf) as [lst Hb].
  { apply lookup_lt_Some in Ht. lia. }
  exists lst. split; [exact Hb |].
  rewrite run64_succ, Hrun. cbn [mbind result_bind].
  eapply step64_served; eassumption.
Qed.

(** An arrival that is finite is a scheduled minute or later and can be
    rendered; below [2 ^ 53] it is rendered as the rational it denotes is
    rendered in exact arithmetic. *)
Lemma arrival_renders (last tm : Binary64.float) (t : string) (tobj : time) (a : Q) :
  parse_time t = inr tobj ->
  actual_arrival last tm (time_to_minutes tobj) = Binary64.Fin a ->
  (inject_Z (time_to_minutes tobj) <= a)%Q /\
  (exists s, minutes_to_time_str (Binary64.Fin a) = inr s) /\
  ((a < exact_range)%Q ->
   minutes_to_time_str (Binary64.Fin a) = inr (Timetable.minutes_to_time_str a)).
Proof.
  intros Hp Ha. apply ClockFacts.parse_time_minutes_range in Hp.
  pose proof (Float64Facts.max_sched _ _ _ Ha) as Hle.
  pose proof (Binary64Facts.inject_Z_nonneg (time_to_minutes tobj) ltac:(lia)) as H0.
  split; [exact Hle |]. split.
  - apply Clock64Facts.render_finite; [lra |].
    revert Ha. unfold actual_arrival, Binary64.max.
    destruct (Binary64.gt _ _).
    + intros [= <-]. unfold Binary64.max_finite. rewrite <- Zle_Qle.
      apply Z.le_trans with (2 ^ 53); [change (2 ^ 53) with 9007199254740992; lia |].
      vm_compute. discriminate.
    + destruct last as [x | sx |], tm as [y | sy |]; simpl; try discriminate.
      * intros H. apply Binary64Facts.rnd_bounded in H. apply H.
      * destruct (Bool.eqb sx sy); discriminate.
  - intros Hb. apply Clock64Facts.render_exact; [lra | exact Hb].
Qed.

(** An arrival is never minus infinity, and one that is not finite raises
    [ValueError] when it is rendered. *)
Lemma arrival_raises (last tm : Binary64.float) (scheduled : Z) :
  (exists a, actual_arrival last tm scheduled = Binary64.Fin a) \/
  ((actual_arrival last tm scheduled = Binary64.NaN \/
    actual_arrival last tm scheduled = Binary64.Inf false) /\
   minutes_to_time_str (actual_arrival last tm scheduled) = inl ValueError).
Proof.
  unfold actual_arrival, Binary64.max.
  destruct (Binary64.add last tm) as [p | [] |]; simpl.
  - destruct (Qlt_le_dec _ _); eauto.
  - eauto.
  - right. split; [right |]; reflexivity.
  - right. split; [left |]; reflexivity.
Qed.

(** A served entry whose arrival is finite completes its iteration. *)
Lemma served_completes stops timetable c n st s t tobj tm c' a :
  well_formed timetable ->
  run stops timetable c n = inr st ->
  stops !! S n = Some s -> timetable !! S n = Some t -> t <> "x" ->
  lookup (gmaps st) (last_used_stop st) s = (Some tm, c') ->
  parse_time t = inr tobj ->
  actual_arrival (last_used_time st) tm (time_to_minutes tobj) = Binary64.Fin a ->
  exists st', run stops timetable c (S n) = inr st'.
Proof.
  intros Hwf Hrun Hs Ht Hx Hl Hp Ha.
  destruct (served_entry _ _ _ _ _ _ _ _ _ _ Hwf Hrun Hs Ht Hx Hl Hp)
    as (lst & _ & Hrun').
  destruct (arrival_renders _ _ _ _ _ Hp Ha) as (_ & [p Hr] & _).
  rewrite Hrun', Ha, Hr. cbn [mbind result_bind]. eauto.
Qed.

End Run.
End Run64Facts.

(** ** Claims about one entry of the route *)

Module StepClaims.
Import Timetable RunFacts.

Section Steps.

Variable World : Type.
Variable directions : World -> string -> string -> response * World.
Variable sleep : World -> World.

Abbreviation lookup := (get_travel_time World directions).
Abbreviation step := (loop_body World directions sleep).
Abbreviation run := (run_upto World directions sleep).
Abbreviation project := (predict_route_times World directions sleep).

Implicit Types (stops timetable : list string) (st : loop_state World)
  (c : client World) (i n : nat).

(** C3.  For a served entry whose lookup gives no result, the iteration
    still completes, appends no row, and leaves [last_used_stop] and
    [last_used_time] as they were; the one thing that changed is the
    client, which has sent that single request. *)
Theorem C3_failed_lookup stops timetable c n st s t c' :
  run_upto World directions sleep stops timetable c n = inr st ->
  stops !! S n = Some s -> timetable !! S n = Some t -> t <> "x" ->
  get_travel_time World directions (gmaps st) (last_used_stop st) s
  = (None, c') ->
  exists st',
    run_upto World directions sleep stops timetable c (S n) = inr st' /\
    results st' = results st /\
    last_used_stop st' = last_used_stop st /\
    last_used_time st' = last_used_time st /\
    requests (gmaps st') = (requests (gmaps st) ++ [(last_used_stop st, s)])%list.
Proof.
  intros Hrun Hs Ht Hx Hl.
  eexists. split.
  - rewrite run_succ, Hrun. cbn [mbind result_bind].
    eapply step_failed; eassumption.
  - cbn. repeat split; try reflexivity.
    eapply lookup_requests; eassumption.
Qed.

(** C5.  For an entry marked ["x"] the iteration appends a row whose
    timetable, extra-traffic and predicted-arrival cells are all ["-"],
    sends no request (the client is untouched), and leaves
    [last_used_stop] and [last_used_time] as they were. *)
Theorem C5_unserved_entry stops timetable c n st s :
  run_upto World directions sleep stops timetable c n = inr st ->
  stops !! S n = Some s -> timetable !! S n = Some "x" ->
  exists st',
    run_upto World directions sleep stops timetable c (S n) = inr st' /\
    results st' = (results st ++
      [ {| Stop := s; Timetable := "-"; Extra_Traffic := Str "-";
           Predicted_Arrival := "-" |} ])%list /\
    gmaps st' = gmaps st /\
    last_used_stop st' = last_used_stop st /\
    last_used_time st' = last_used_time st.
Proof.
  intros Hrun Hs Ht. eexists. split.
  - rewrite run_succ, Hrun. cbn [mbind result_bind].
    eapply step_unserved; eassumption.
  - cbn. repeat split; reflexivity.
Qed.

End Steps.
End StepClaims.

(** ** Claims about a whole call *)

Module RunClaims.
Import Timetable RunFacts.

Section Calls.

Variable World : Type.
Variable directions : World -> string -> string -> response * World.
Variable sleep : World -> World.

Abbreviation lookup := (get_travel_time World directions).
Abbreviation step := (loop_body World directions sleep).
Abbreviation run := (run_upto World directions sleep).
Abbreviation project := (predict_route_times World directions sleep).
Abbreviation fails := (lookup_fails World directions sleep).

Implicit Types (stops timetable : list string) (st : loop_state World)
  (c : client World) (i n : nat) (rows : list row).

(** A completed call is a completed run over all the entries. *)
Lemma project_inr stops timetable c rows c' :
  project stops timetable c = inr (rows, c') ->
  exists st, run stops timetable c (length stops - 1) = inr st /\
             rows = results st /\ c' = gmaps st.
Proof.
  rewrite project_run. intros H. apply bind_inr in H as (st & Hrun & [= <- <-]).
  eauto.
Qed.

Lemma run_succ_inr stops timetable c n st' :
  run stops timetable c (S n) = inr st' ->
  exists st, run stops timetable c n = inr st /\
             step stops timetable (S n) st = inr st'.
Proof. rewrite run_succ. apply bind_inr. Qed.

Lemma run_stops_length stops timetable c n st :
  run stops timetable c n = inr st -> (n < length stops)%nat.
Proof.
  destruct n as [| n]; intros H.
  - apply run_inr_initial in H as [st0 H].
    apply initial_state_inr in H as (stop0 & _ & _ & Hs & _).
    apply lookup_lt_Some in Hs. exact Hs.
  - apply run_succ_inr in H as (st0 & _ & H).
    apply step_inv in H as (s & _ & Hs & _).
    apply lookup_lt_Some in Hs. exact Hs.
Qed.

Lemma parse_time_x : parse_time "x" = inl ValueError.
Proof. reflexivity. Qed.

Lemma run_anchor stops timetable c n st :
  run stops timetable c n = inr st ->
  exists stop0 t0 rest,
    stops !! 0%nat = Some stop0 /\ timetable !! 0%nat = Some t0 /\
    results st = {| Stop := stop0; Timetable := t0; Extra_Traffic := Num 0;
                    Predicted_Arrival := t0 |} :: rest.
Proof.
  revert st. induction n as [| n IH]; intros st H.
  - rewrite run_zero in H.
    apply initial_state_inr in H as (stop0 & t0 & tobj & Hs & Ht & _ & ->).
    exists stop0, t0, []. auto.
  - apply run_succ_inr in H as (st0 & Hrun & Hstep).
    destruct (IH _ Hrun) as (stop0 & t0 & rest & Hs & Ht & Hres).
    apply step_inv in Hstep as (s & t & _ & _ & Hcase).
    destruct Hcase as [[_ ->] | [(_ & c' & _ & ->) | (_ & tm & c' & tobj & lst & _ & _ & _ & ->)]];
      cbn [results]; rewrite Hres; eauto 10.
Qed.

(** C4.  Whenever the call returns, its first row is the anchor, copied
    from the input: the first stop, its timetable string as the scheduled
    time and, unchanged, as the predicted arrival, and extra traffic 0.
    The service and the clock are arbitrary. *)
Theorem C4_anchor_row stops timetable c rows c' :
  predict_route_times World directions sleep stops timetable c = inr (rows, c') ->
  exists stop0 t0 rest,
    stops !! 0%nat = Some stop0 /\ timetable !! 0%nat = Some t0 /\
    t0 <> "x" /\
    rows = {| Stop := stop0; Timetable := t0; Extra_Traffic := Num 0;
              Predicted_Arrival := t0 |} :: rest.
Proof.
  intros H. apply project_inr in H as (st & Hrun & -> & _).
  destruct (run_anchor _ _ _ _ _ Hrun) as (stop0 & t0 & rest & Hs & Ht & Hres).
  exists stop0, t0, rest. repeat split; auto.
  apply run_inr_initial in Hrun as [st0 H0].
  apply initial_state_inr in H0 as (? & t0' & tobj & _ & Ht' & Hp & _).
  intros ->. rewrite Ht in Ht'. injection Ht' as <-.
  rewrite parse_time_x in Hp. discriminate.
Qed.

(** *** Rows kept and rows dropped *)

Lemma run_kept stops timetable c n st :
  run stops timetable c n = inr st ->
  map entry_cells (results st) = omap (kept_entry World directions sleep stops timetable c) (seq 0 (S n)).
Proof.
  revert st. induction n as [| n IH]; intros st H.
  - rewrite run_zero in H.
    apply initial_state_inr in H as (stop0 & t0 & tobj & Hs & Ht & Hp & ->).
    cbn. unfold kept_entry. cbn [lookup_fails]. rewrite Hs, Ht.
    destruct (decide (t0 <> "x")) as [_ | Hx]; [reflexivity |].
    exfalso. apply Hx. intros ->. rewrite parse_time_x in Hp. discriminate.
  - pose proof H as Hafter.
    apply run_succ_inr in H as (st0 & Hrun & Hstep).
    rewrite seq_S, omap_app, <- (IH _ Hrun). cbn [omap list_omap].
    change (0 + S n)%nat with (S n).
    apply step_inv in Hstep as (s & t & Hs & Ht & Hcase).
    unfold kept_entry. cbn [lookup_fails]. rewrite Hrun, Hs, Ht.
    destruct Hcase as [[-> ->] | [(Hx & c' & Hl & ->) | (Hx & tm & c' & tobj & lst & Hl & _ & _ & ->)]];
      cbn [results].
    + destruct (decide ("x" <> "x")) as [? | _]; [congruence |].
      rewrite map_app. reflexivity.
    + destruct (decide (t <> "x")) as [_ | ?]; [| contradiction].
      rewrite Hl. cbn. rewrite app_nil_r. reflexivity.
    + destruct (decide (t <> "x")) as [_ | ?]; [| contradiction].
      rewrite Hl. cbn. rewrite map_app. reflexivity.
Qed.

Lemma run_all_answered stops timetable c n st :
  run stops timetable c n = inr st ->
  (forall i, (i <= n)%nat -> fails stops timetable c i = false) ->
  length (results st) = S n.
Proof.
  revert st. induction n as [| n IH]; intros st H Hok.
  - rewrite run_zero in H.
    apply initial_state_inr in H as (stop0 & t0 & tobj & _ & _ & _ & ->).
    reflexivity.
  - apply run_succ_inr in H as (st0 & Hrun & Hstep).
    specialize (IH _ Hrun ltac:(intros; apply Hok; lia)).
    specialize (Hok (S n) ltac:(lia)).
    apply step_inv in Hstep as (s & t & Hs & Ht & Hcase).
    cbn [lookup_fails] in Hok. rewrite Hrun, Hs, Ht in Hok.
    destruct Hcase as [[-> ->] | [(Hx & c' & Hl & ->) | (Hx & tm & c' & tobj & lst & _ & _ & _ & ->)]];
      cbn [results]; rewrite ?length_app, ?IH; cbn; try lia.
    destruct (decide (t <> "x")) as [_ | ?]; [| contradiction].
    rewrite Hl in Hok. discriminate.
Qed.


(** *** Requests sent *)

Lemma run_requests stops timetable c n st :
  run stops timetable c n = inr st ->
  exists new,
    requests (gmaps st) = requests c ++ new /\
    map snd new = omap (served_stop stops timetable) (seq 1 n).
Proof.
  revert st. induction n as [| n IH]; intros st H.
  - rewrite run_zero in H.
    apply initial_state_inr in H as (stop0 & t0 & tobj & _ & _ & _ & ->).
    exists []. cbn. rewrite app_nil_r. auto.
  - apply run_succ_inr in H as (st0 & Hrun & Hstep).
    destruct (IH _ Hrun) as (new & Hreq & Hdst).
    rewrite seq_S, omap_app, <- Hdst. cbn [omap list_omap].
    change (1 + n)%nat with (S n).
    apply step_inv in Hstep as (s & t & Hs & Ht & Hcase).
    unfold served_stop. rewrite Ht, Hs.
    destruct Hcase as [[-> ->] | [(Hx & c' & Hl & ->) | (Hx & tm & c' & tobj & lst & Hl & _ & _ & ->)]];
      cbn [gmaps requests].
    + destruct (decide ("x" <> "x")) as [? | _]; [congruence |].
      exists new. cbn. rewrite app_nil_r. auto.
    + destruct (decide (t <> "x")) as [_ | ?]; [| contradiction].
      apply lookup_requests in Hl. rewrite Hl, Hreq.
      exists (new ++ [(last_used_stop st0, s)]).
      rewrite app_assoc, map_app. auto.
    + destruct (decide (t <> "x")) as [_ | ?]; [| contradiction].
      apply lookup_requests in Hl. rewrite Hl, Hreq.
      exists (new ++ [(last_used_stop st0, s)]).
      rewrite app_assoc, map_app. auto.
Qed.

(** C8 (amended).  Whenever the call returns, the requests it has sent
    are, in order, exactly one per served entry after the anchor, each to
    that entry's stop: none for the anchor, none for an unserved entry, and
    none repeated. *)
Theorem C8_one_lookup_per_served_entry stops timetable c rows c' :
  predict_route_times World directions sleep stops timetable c = inr (rows, c') ->
  exists new,
    requests c' = requests c ++ new /\
    map snd new = served_after_anchor stops timetable.
Proof.
  intros H. apply project_inr in H as (st & Hrun & _ & ->).
  exact (run_requests _ _ _ _ _ Hrun).
Qed.

(** *** Arrivals in order *)

Lemma sorted_snoc (l : list Z) (x : Z) :
  StronglySorted Z.le l -> Forall (fun y => y <= x) l ->
  StronglySorted Z.le (l ++ [x]).
Proof.
  induction 1 as [| y l Hs IH Hy]; intros Hall; simpl.
  - repeat constructor.
  - apply Forall_cons in Hall as [Hyx Hall].
    constructor; [apply IH; exact Hall |].
    apply Forall_app. split; [exact Hy | repeat constructor; exact Hyx].
Qed.

Lemma shown_arrivals_snoc rows (r : row) :
  shown_arrivals (rows ++ [r])
  = shown_arrivals rows ++
    match clock_minutes (Predicted_Arrival r) with Some z => [z] | None => [] end.
Proof.
  unfold shown_arrivals. rewrite omap_app. cbn [omap list_omap].
  destruct (clock_minutes _); reflexivity.
Qed.

Lemma step_monotone stops timetable i st st' :
  (forall c0 origin destination tm c1,
      lookup c0 origin destination = (Some tm, c1) -> (0 <= tm)%Q) ->
  step stops timetable i st = inr st' ->
  (last_used_time st <= last_used_time st')%Q.
Proof.
  intros Hnn H. apply step_inv in H as (s & t & _ & _ & Hcase).
  destruct Hcase as [[_ ->] | [(_ & c' & _ & ->) | (_ & tm & c' & tobj & lst & Hl & _ & _ & ->)]];
    cbn [last_used_time]; try lra.
  apply Hnn in Hl. unfold actual_arrival.
  pose proof (PyFacts.max_ge_l (last_used_time st + tm)
                (inject_Z (time_to_minutes tobj))).
  lra.
Qed.

Lemma run_sorted stops timetable c n st :
  (forall c0 origin destination tm c1,
      lookup c0 origin destination = (Some tm, c1) -> (0 <= tm)%Q) ->
  run stops timetable c n = inr st ->
  StronglySorted Z.le (shown_arrivals (results st)) /\
  Forall (fun z => z <= Qfloor (last_used_time st)) (shown_arrivals (results st)) /\
  (0 <= last_used_time st)%Q /\
  Forall readable (results st).
Proof.
  intros Hnn. revert st. induction n as [| n IH]; intros st H.
  - rewrite run_zero in H.
    apply initial_state_inr in H as (stop0 & t0 & tobj & _ & _ & Hp & ->).
    cbn [results last_used_time]. unfold shown_arrivals. cbn [omap list_omap].
    cbn [Predicted_Arrival]. rewrite (ClockFacts.parse_time_clock _ _ Hp).
    rewrite Qfloor_Z.
    pose proof (ClockFacts.parse_time_minutes_range _ _ Hp) as Hrange.
    repeat split.
    + repeat constructor.
    + repeat constructor. lia.
    + change 0%Q with (inject_Z 0). rewrite <- Zle_Qle. lia.
    + apply Forall_cons. split; [| constructor].
      intros _. cbn [Predicted_Arrival].
      rewrite (ClockFacts.parse_time_clock _ _ Hp). eauto.
  - apply run_succ_inr in H as (st0 & Hrun & Hstep).
    destruct (IH _ Hrun) as (Hs & Hle & Hpos & Hread).
    pose proof (step_monotone _ _ _ _ _ Hnn Hstep) as Hmono.
    apply step_inv in Hstep as (s & t & _ & Ht & Hcase).
    destruct Hcase as [[_ ->] | [(_ & c' & _ & ->) | (Hx & tm & c' & tobj & lst & Hl & Hp & _ & ->)]];
      cbn [results last_used_time] in *.
    + rewrite shown_arrivals_snoc. cbn. rewrite app_nil_r.
      repeat split; auto.
      apply Forall_app. split; [exact Hread |].
      apply Forall_cons. split; [| constructor].
      intros Hdash. cbn in Hdash. congruence.
    + auto.
    + pose proof (Qfloor_resp_le _ _ Hmono) as Hfl.
      assert (0 <= actual_arrival (last_used_time st0) tm (time_to_minutes tobj))%Q
        as Hpos' by lra.
      rewrite shown_arrivals_snoc. cbn [Predicted_Arrival].
      rewrite (ClockFacts.clock_minutes_render _ Hpos').
      assert (Forall (fun z => z <= Qfloor (actual_arrival (last_used_time st0) tm
                                               (time_to_minutes tobj)))
                (shown_arrivals (results st0))) as Hle'.
      { eapply Forall_impl; [exact Hle |]. cbn. intros z Hz. lia. }
      repeat split.
      * apply sorted_snoc; assumption.
      * apply Forall_app. split; [exact Hle' |]. repeat constructor. lia.
      * exact Hpos'.
      * apply Forall_app. split; [exact Hread |].
        apply Forall_cons. split; [| constructor].
        intros _. cbn [Predicted_Arrival].
        rewrite (ClockFacts.clock_minutes_render _ Hpos'). eauto.
Qed.


(** *** Clock times and the backward scan *)

Lemma time_of_minutes (t : string) (tobj : time) :
  parse_time t = inr tobj ->
  {| hour := time_to_minutes tobj / 60; minute := time_to_minutes tobj mod 60 |}
  = tobj.
Proof.
  intros Hp. apply ClockFacts.parse_time_bounds in Hp as [Hh Hm].
  destruct tobj as [h m]. unfold time_to_minutes. cbn [hour minute] in *.
  f_equal.
  - symmetry. apply (Z.div_unique _ 60 h m); lia.
  - symmetry. apply (Z.mod_unique _ 60 h m); lia.
Qed.

Lemma last_scheduled_step timetable n t :
  timetable !! n = Some t ->
  last_scheduled timetable (S n)
  = if decide (t <> "x")
    then tobj ← parse_time t; inr (Some (time_to_minutes tobj))
    else last_scheduled timetable n.
Proof. intros Ht. cbn [last_scheduled]. unfold getitem. rewrite Ht. reflexivity. Qed.

End Calls.
End RunClaims.

(** ** Claims about the numbers a row shows *)

Module FloatClaims.
Import Timetable Timetable64 RunFacts Run64Facts.

Section Calls.

Variable World : Type.
Variable directions : World -> string -> string -> response * World.
Variable sleep : World -> World.

Abbreviation lookup := (get_travel_time World directions).
Abbreviation step := (loop_body World directions sleep).
Abbreviation run := (run_upto World directions sleep).
Abbreviation project := (predict_route_times World directions sleep).

Implicit Types (stops timetable : list string) (st : loop_state World)
  (c : client World) (i n : nat) (rows : list row).


(** C2.  For a served entry after the anchor whose lookup answers, let
    [arrival] be the clamped arrival.  The iteration completes whenever
    [arrival] is finite.  Whenever it completes, the row appended is the
    row of this entry and shows [round(extra, 1)] where, with [j] the
    nearest earlier entry that is not ["x"],
    [extra = max(0, (arrival - last_used_time) - (scheduled - scheduled_j))],
    each difference being a float difference; with no such earlier entry
    [extra = 0].  Neither [extra] nor the number shown is ever negative or
    a NaN. *)
Theorem C2_extra_delay stops timetable c n st s t tobj tm c' :
  well_formed timetable ->
  Timetable64.run_upto World directions sleep stops timetable c n = inr st ->
  stops !! S n = Some s -> timetable !! S n = Some t -> t <> "x" ->
  Timetable64.get_travel_time World directions (gmaps st) (last_used_stop st) s
  = (Some tm, c') ->
  parse_time t = inr tobj ->
  let scheduled := time_to_minutes tobj in
  let arrival :=
    Binary64.max (Binary64.add (last_used_time st) tm)
      (Binary64.Fin (inject_Z scheduled)) in
  (forall a, arrival = Binary64.Fin a ->
     exists st',
       Timetable64.run_upto World directions sleep stops timetable c (S n)
       = inr st') /\
  (forall st',
     Timetable64.run_upto World directions sleep stops timetable c (S n)
     = inr st' ->
     exists (r : row) extra,
       results st' = (results st ++ [r])%list /\
       Stop r = s /\ Timetable r = t /\
       Extra_Traffic r = Num (Binary64.round1 extra) /\
       Binary64.nonneg extra /\ Binary64.nonneg (Binary64.round1 extra) /\
       ((exists j tj tobj_j,
           (j < S n)%nat /\ timetable !! j = Some tj /\ tj <> "x" /\
           (forall k, (j < k < S n)%nat -> timetable !! k = Some "x") /\
           parse_time tj = inr tobj_j /\
           extra = Binary64.max (Binary64.Fin 0)
                     (Binary64.sub
                        (Binary64.sub arrival (last_used_time st))
                        (Binary64.Fin
                           (inject_Z (scheduled - time_to_minutes tobj_j)))))
        \/ ((forall k, (k < S n)%nat -> timetable !! k = Some "x") /\
            extra = Binary64.Fin 0))).
Proof.
  intros Hwf Hrun Hs Ht Hx Hl Hp scheduled arrival.
  destruct (served_entry World directions sleep _ _ _ _ _ _ _ _ _ _
              Hwf Hrun Hs Ht Hx Hl Hp)
    as (lst & Hb & Hrun').
  split.
  - intros a Ha.
    eapply (served_completes World directions sleep); eassumption.
  - intros st' Hst'. rewrite Hrun' in Hst'.
    apply bind_inr in Hst' as (p & _ & [= <-]).
    eexists _, _. cbn [results Stop Timetable Extra_Traffic].
    split; [reflexivity |]. split; [reflexivity |]. split; [reflexivity |].
    split; [reflexivity |].
    assert (Binary64.nonneg
              (extra_traffic (last_used_time st) tm (time_to_minutes tobj) lst))
      as Hnn.
    { unfold extra_traffic. destruct lst.
      - apply Float64Facts.max_zero_nonneg.
      - simpl. lra. }
    split; [exact Hnn |].
    split; [apply Float64Facts.round1_keeps_sign; exact Hnn |].
    destruct lst as [l |].
    + left. destruct (last_scheduled_some _ _ _ Hb)
        as (j & tj & tobj_j & Hj & Htj & Hxj & Hpj & -> & Hbetween).
      exists j, tj, tobj_j. repeat split; auto.
    + right. split; [| reflexivity]. apply last_scheduled_none. exact Hb.
Qed.

(** *** Lookups that agree with the timetable *)

Lemma minute_of_day (z : Z) : 0 <= z < 1440 -> - 2 ^ 53 <= z <= 2 ^ 53.
Proof. intros H. change (2 ^ 53) with 9007199254740992. lia. Qed.

(** One leg driven in exactly its scheduled time: every float operation of
    the iteration is exact. *)
Lemma on_time_arrival (v q : Q) (scheduled lst : Z) :
  0 <= scheduled < 1440 -> 0 <= lst < 1440 ->
  (v == inject_Z lst)%Q -> (q == inject_Z (scheduled - lst))%Q ->
  exists p,
    actual_arrival (Binary64.Fin v) (Binary64.Fin q) scheduled = Binary64.Fin p /\
    (p == inject_Z scheduled)%Q /\
    Binary64.round1
      (extra_traffic (Binary64.Fin v) (Binary64.Fin q) scheduled (Some lst))
    = Binary64.Fin 0.
Proof.
  intros Hs Hlst Hv Hq.
  pose proof (PyFacts.inject_Z_sub scheduled lst _ eq_refl) as Hsub.
  destruct (Float64Facts.add_int v q scheduled) as (p & Hp & Ep);
    [lra | apply minute_of_day; exact Hs |].
  assert (actual_arrival (Binary64.Fin v) (Binary64.Fin q) scheduled
          = Binary64.Fin p) as Harr.
  { unfold actual_arrival. rewrite Hp. unfold Binary64.max. simpl.
    destruct (Qlt_le_dec p (inject_Z scheduled)); [lra | reflexivity]. }
  destruct (Float64Facts.sub_int p v (scheduled - lst)) as (w & Hw & Ew);
    [lra | change (2 ^ 53) with 9007199254740992; lia |].
  destruct (Float64Facts.sub_int w (inject_Z (scheduled - lst)) 0) as (u & Hu & Eu);
    [change (inject_Z 0) with 0%Q; lra | lia |].
  change (inject_Z 0) with 0%Q in Eu.
  exists p. split; [exact Harr |]. split; [exact Ep |].
  unfold extra_traffic. cbv zeta. rewrite Harr, Hw, Hu.
  unfold Binary64.max. cbn [Binary64.gt].
  destruct (Qlt_le_dec 0 u); [lra | reflexivity].
Qed.

Lemma zip_snoc (stops timetable : list string) (n : nat) (s t : string) :
  stops !! n = Some s -> timetable !! n = Some t ->
  take (S n) (zip stops timetable) = (take n (zip stops timetable) ++ [(s, t)])%list.
Proof.
  intros Hs Ht. apply take_S_r.
  revert timetable n Hs Ht.
  induction stops as [| s0 stops IH]; intros [| t0 timetable] [| n];
    cbn; try discriminate.
  - intros [= ->] [= ->]. reflexivity.
  - apply IH.
Qed.

Lemma run_on_schedule stops timetable c n :
  input_ok stops timetable ->
  (forall n st s t tobj lst,
      run stops timetable c n = inr st ->
      stops !! S n = Some s -> timetable !! S n = Some t -> t <> "x" ->
      parse_time t = inr tobj ->
      last_scheduled timetable (S n) = inr (Some lst) ->
      exists tm c',
        lookup (gmaps st) (last_used_stop st) s = (Some (Binary64.Fin tm), c') /\
        (tm == inject_Z (time_to_minutes tobj - lst))%Q) ->
  (n < length stops)%nat ->
  exists st lst v,
    run stops timetable c n = inr st /\
    last_scheduled timetable (S n) = inr (Some lst) /\
    0 <= lst < 1440 /\
    last_used_time st = Binary64.Fin v /\ (v == inject_Z lst)%Q /\
    Forall2 on_schedule (take (S n) (zip stops timetable)) (results st).
Proof.
  intros (Hne & Hlen & Hwf & Hfirst) Hexact.
  induction n as [| n IH]; intros Hn.
  - destruct (lookup_lt_is_Some_2 stops 0 Hn) as [stop0 Hs].
    destruct (lookup_lt_is_Some_2 timetable 0 ltac:(lia)) as [t0 Ht].
    assert (t0 <> "x") as Hx by (intros ->; contradiction).
    assert (exists tobj, parse_time t0 = inr tobj) as [tobj Hp].
    { unfold well_formed in Hwf. rewrite Forall_lookup in Hwf.
      destruct (Hwf _ _ Ht) as [-> | H]; [contradiction | exact H]. }
    eexists _, (time_to_minutes tobj), _. split.
    { apply run_initial; eassumption. }
    split.
    { rewrite (RunClaims.last_scheduled_step _ _ _ Ht).
      destruct (decide (t0 <> "x")); [| contradiction]. rewrite Hp. reflexivity. }
    split; [eapply ClockFacts.parse_time_minutes_range; exact Hp |].
    cbn [results last_used_time]. split; [reflexivity |]. split; [reflexivity |].
    rewrite (zip_snoc _ _ 0 _ _ Hs Ht). cbn [take app].
    apply Forall2_cons. split; [| constructor].
    unfold on_schedule. cbn [Stop Timetable Extra_Traffic Predicted_Arrival].
    split; [reflexivity |].
    destruct (decide (t0 <> "x")); [| contradiction].
    split; [reflexivity |]. split; [reflexivity |].
    exists tobj. split; exact Hp.
  - destruct (IH ltac:(lia)) as (st & lst & v & Hrun & Hb & Hlst & Hlast & Hv & Hall).
    destruct (lookup_lt_is_Some_2 stops (S n) Hn) as [s Hs].
    destruct (lookup_lt_is_Some_2 timetable (S n) ltac:(lia)) as [t Ht].
    rewrite (zip_snoc _ _ (S n) _ _ Hs Ht).
    destruct (decide (t = "x")) as [-> | Hx].
    + eexists _, lst, v. split.
      { rewrite run64_succ, Hrun. cbn [mbind result_bind].
        apply (step64_unserved _ _ _ _ _ _ _ _ Hs Ht). }
      split.
      { rewrite (RunClaims.last_scheduled_step _ _ _ Ht).
        destruct (decide ("x" <> "x")); [congruence | exact Hb]. }
      split; [exact Hlst |].
      cbn [results last_used_time]. split; [exact Hlast |]. split; [exact Hv |].
      apply Forall2_app; [exact Hall |].
      apply Forall2_cons. split; [| constructor].
      unfold on_schedule. cbn [Stop Timetable Extra_Traffic Predicted_Arrival].
      split; [reflexivity |].
      destruct (decide ("x" <> "x")); [congruence | auto].
    + assert (exists tobj, parse_time t = inr tobj) as [tobj Hp].
      { unfold well_formed in Hwf. rewrite Forall_lookup in Hwf.
        destruct (Hwf _ _ Ht) as [-> | H]; [contradiction | exact H]. }
      pose proof (ClockFacts.parse_time_minutes_range _ _ Hp) as Hrange.
      destruct (Hexact n st s t tobj lst Hrun Hs Ht Hx Hp Hb)
        as (tm & c' & Hl & Htm).
      destruct (served_entry World directions sleep
                  _ _ _ _ _ _ _ _ _ _ Hwf Hrun Hs Ht Hx Hl Hp)
        as (lst' & Hb' & Hrun').
      rewrite Hb in Hb'. injection Hb' as <-.
      rewrite Hlast in Hrun'.
      destruct (on_time_arrival v tm (time_to_minutes tobj) lst Hrange Hlst Hv Htm)
        as (p & Harr & Ep & Hextra).
      rewrite Harr, Hextra in Hrun'.
      assert (0 <= p)%Q as Hp0.
      { pose proof (Binary64Facts.inject_Z_nonneg (time_to_minutes tobj) ltac:(lia)).
        lra. }
      assert (p < inject_Z (2 ^ 53))%Q as Hp53.
      { rewrite Ep, <- Zlt_Qlt. change (2 ^ 53) with 9007199254740992. lia. }
      rewrite (Clock64Facts.render_exact p Hp0 Hp53) in Hrun'.
      cbn [mbind result_bind] in Hrun'.
      eexists _, (time_to_minutes tobj), p. split; [exact Hrun' |].
      split.
      { rewrite (RunClaims.last_scheduled_step _ _ _ Ht).
        destruct (decide (t <> "x")); [| contradiction]. rewrite Hp. reflexivity. }
      split; [exact Hrange |].
      cbn [results last_used_time]. split; [reflexivity |]. split; [exact Ep |].
      apply Forall2_app; [exact Hall |].
      apply Forall2_cons. split; [| constructor].
      unfold on_schedule. cbn [Stop Timetable Extra_Traffic Predicted_Arrival].
      split; [reflexivity |].
      destruct (decide (t <> "x")); [| contradiction].
      split; [reflexivity |]. split; [reflexivity |].
      exists tobj. split; [exact Hp |].
      assert (Qfloor p = time_to_minutes tobj) as Hfl.
      { rewrite Ep. apply Qfloor_Z. }
      rewrite ClockFacts.parse_time_render.
      * rewrite Hfl. f_equal. eapply RunClaims.time_of_minutes; exact Hp.
      * exact Hp0.
      * rewrite Hfl. lia.
Qed.

(** C6.  On a route that meets the input constraint, if the lookup issued
    for every served entry after the anchor answers exactly the scheduled
    leg (the entry's scheduled minutes minus those of the nearest earlier
    served entry), then the call returns one row per entry, in order, and
    the row of an entry holds that entry's stop and, for a served entry,
    its own timetable string, extra traffic 0 and a predicted arrival that
    parses to its scheduled time; for an unserved entry, the three
    dashes. *)
Theorem C6_round_trip stops timetable c :
  input_ok stops timetable ->
  (forall n st s t tobj lst,
      Timetable64.run_upto World directions sleep stops timetable c n = inr st ->
      stops !! S n = Some s -> timetable !! S n = Some t -> t <> "x" ->
      parse_time t = inr tobj ->
      last_scheduled timetable (S n) = inr (Some lst) ->
      exists tm c',
        Timetable64.get_travel_time World directions
          (gmaps st) (last_used_stop st) s
        = (Some (Binary64.Fin tm), c') /\
        (tm == inject_Z (time_to_minutes tobj - lst))%Q) ->
  exists rows c',
    Timetable64.predict_route_times World directions sleep stops timetable c
    = inr (rows, c') /\
    length rows = length stops /\
    Forall2 Timetable64.on_schedule (zip stops timetable) rows.
Proof.
  intros Hok Hexact.
  assert (length stops <> 0)%nat as Hne.
  { destruct Hok as (Hne & _). destruct stops; [contradiction | cbn; lia]. }
  destruct (run_on_schedule stops timetable c (length stops - 1) Hok Hexact
              ltac:(lia)) as (st & lst & v & Hrun & _ & _ & _ & _ & Hall).
  assert (take (S (length stops - 1)) (zip stops timetable) = zip stops timetable)
    as Hfull.
  { apply take_ge. rewrite length_zip_with. lia. }
  rewrite Hfull in Hall.
  exists (results st), (gmaps st). split.
  - rewrite project64_run, Hrun. reflexivity.
  - split; [| exact Hall].
    apply Forall2_length in Hall. rewrite <- Hall, length_zip_with.
    destruct Hok as (_ & Hlen & _). lia.
Qed.

End Calls.
End FloatClaims.

(** ** Claims about the stop extraction *)

Module ExtractClaims.
Import ExtractStops.

Implicit Types (stops_dict : gmap (option string) (option string))
  (seq cands : list stop) (s : stop) (ref : option element).

Lemma add_stop_push stops_dict ref seq :
  add_stop stops_dict ref seq
  = match resolve stops_dict ref with
    | Some s => push seq s
    | None => seq
    end.
Proof.
  unfold add_stop, resolve, push. destruct ref as [el |]; [| reflexivity].
  destruct (stops_dict !! text el); reflexivity.
Qed.

Lemma visit_link_foldl stops_dict seq link :
  visit_link stops_dict seq link
  = foldl push seq (omap (resolve stops_dict) (link_refs link)).
Proof.
  unfold visit_link, link_refs. rewrite !add_stop_push. cbn.
  destruct (resolve stops_dict (find_below_child "From" _ link));
    destruct (resolve stops_dict (find_below_child "To" _ link)); reflexivity.
Qed.

Lemma omap_flat_map {A B C : Type} (f : B -> option C) (g : A -> list B)
    (l : list A) :
  omap f (flat_map g l) = flat_map (fun x => omap f (g x)) l.
Proof.
  induction l as [| x l IH]; cbn; [reflexivity |].
  rewrite omap_app, IH. reflexivity.
Qed.

Lemma foldl_flat_map {A B : Type} (step : list stop -> B -> list stop)
    (g : A -> list B) (l : list A) seq :
  foldl (fun acc x => foldl step acc (g x)) seq l = foldl step seq (flat_map g l).
Proof.
  revert seq. induction l as [| x l IH]; intros seq; cbn; [reflexivity |].
  rewrite foldl_app. apply IH.
Qed.

Lemma foldl_pointwise {A B : Type} (f g : A -> B -> A) (l : list B) (a : A) :
  (forall acc x, f acc x = g acc x) -> foldl f a l = foldl g a l.
Proof.
  intros H. revert a. induction l as [| x l IH]; intros a; cbn; [reflexivity |].
  rewrite H. apply IH.
Qed.

Lemma visit_section_foldl stops_dict seq section :
  visit_section stops_dict seq section
  = foldl push seq (omap (resolve stops_dict) (section_refs section)).
Proof.
  unfold visit_section, section_refs. rewrite omap_flat_map.
  rewrite <- foldl_flat_map. apply foldl_pointwise. intros acc link.
  apply visit_link_foldl.
Qed.

Lemma visit_sections_foldl stops_dict seq sections :
  foldl (visit_section stops_dict) seq sections
  = foldl push seq (omap (resolve stops_dict) (flat_map section_refs sections)).
Proof.
  rewrite omap_flat_map, <- foldl_flat_map. apply foldl_pointwise.
  intros acc section. apply visit_section_foldl.
Qed.

Section WithPaths.

Variable findall_sections : element -> string -> result (list element).

(** The loops over a pattern append, in the order met, the stops its
    references resolve to. *)
Lemma visit_refs_foldl root stops_dict refs seq l :
  visit_refs findall_sections root stops_dict refs seq = inr l ->
  exists rs,
    pattern_refs findall_sections root refs = inr rs /\
    l = foldl push seq (omap (resolve stops_dict) rs).
Proof.
  revert seq. induction refs as [| r refs IH]; intros seq; cbn.
  - intros [= <-]. exists []. auto.
  - destruct (findall_sections root (format_id (text r))) as [e | sections];
      cbn; [discriminate |].
    intros H. apply IH in H as (rs & Hrs & ->).
    rewrite Hrs. cbn. eexists. split; [reflexivity |].
    rewrite omap_app, foldl_app, visit_sections_foldl. reflexivity.
Qed.

End WithPaths.

(** *** Appending unseen stops keeps the first occurrences *)

Lemma foldl_push_first_seen seq cands :
  foldl push seq cands = seq ++ filter (fun y => y ∉ seq) (first_seen cands).
Proof.
  revert seq. induction cands as [| x cands IH]; intros seq;
    cbn [foldl first_seen].
  - rewrite filter_nil, app_nil_r. reflexivity.
  - rewrite IH. unfold push.
    destruct (decide (x ∈ seq)) as [Hin | Hout].
    + rewrite filter_cons_False by (intros H; apply H; exact Hin).
      rewrite list_filter_filter_l; [reflexivity |].
      intros y Hy ->. contradiction.
    + rewrite filter_cons_True by exact Hout.
      rewrite <- app_assoc. cbn [app]. f_equal. f_equal.
      rewrite list_filter_filter. apply list_filter_iff.
      intros y. rewrite not_elem_of_app, not_elem_of_cons.
      split; [intros (? & ? & _) | intros (? & ?)]; repeat split; auto.
      apply not_elem_of_nil.
Qed.

Lemma foldl_push_nil cands : foldl push [] cands = first_seen cands.
Proof.
  rewrite foldl_push_first_seen. cbn [app].
  induction (first_seen cands) as [| y l IH]; [reflexivity |].
  rewrite filter_cons_True by apply not_elem_of_nil. f_equal. exact IH.
Qed.

Lemma first_seen_elem cands s : s ∈ first_seen cands <-> s ∈ cands.
Proof.
  induction cands as [| x cands IH]; cbn; [reflexivity |].
  rewrite !elem_of_cons, list_elem_of_filter, IH.
  destruct (decide (s = x)) as [-> | Hne]; [tauto |]. tauto.
Qed.

Lemma first_seen_NoDup cands : NoDup (first_seen cands).
Proof.
  induction cands as [| x cands IH]; cbn; [constructor |].
  constructor.
  - rewrite list_elem_of_filter. intros [H _]. apply H. reflexivity.
  - apply NoDup_filter, IH.
Qed.

Lemma resolved_in_table stops_dict (rs : list (option element)) s :
  s ∈ omap (resolve stops_dict) rs -> stops_dict !! atco_code s = Some (name s).
Proof.
  rewrite list_elem_of_omap. intros (ref & _ & H).
  unfold resolve in H. destruct ref as [el |]; [| discriminate].
  destruct (stops_dict !! text el) eqn:E; [| discriminate].
  injection H as <-. exact E.
Qed.

(** *** The stop-point table *)

Lemma build_stops_dict_declared stop_points acc stops_dict :
  build_stops_dict stop_points acc = inr stops_dict ->
  forall k v, stops_dict !! k = Some v ->
    acc !! k = Some v \/
    exists stop_point, stop_point ∈ stop_points /\
      declares stop_point {| name := v; atco_code := k |}.
Proof.
  revert acc. induction stop_points as [| sp sps IH]; intros acc; cbn.
  - intros [= <-] k v H. left. exact H.
  - destruct (find_child "StopPointRef" sp) as [ref |] eqn:Hr; [| discriminate].
    destruct (find_child "CommonName" sp) as [cn |] eqn:Hc; [| discriminate].
    intros H k v Hk. destruct (IH _ H k v Hk) as [Hacc | (sp' & Hin & Hd)].
    + destruct (decide (text ref = k)) as [<- | Hne].
      * rewrite lookup_insert_eq in Hacc. injection Hacc as <-.
        right. exists sp. split; [left |]. exists ref, cn. auto.
      * rewrite lookup_insert_ne in Hacc by exact Hne. left. exact Hacc.
    + right. exists sp'. split; [right; exact Hin | exact Hd].
Qed.

(** *** The search *)

Lemma first_hit_some {A : Type} (f : A -> result (option (list stop)))
    (l : list A) found :
  first_hit f l = inr (Some found) ->
  exists x, x ∈ l /\ f x = inr (Some found).
Proof.
  induction l as [| x l IH]; cbn; [discriminate |].
  destruct (f x) as [e | [hit |]] eqn:E; cbn.
  - discriminate.
  - intros [= <-]. exists x. split; [left | exact E].
  - intros H. destruct (IH H) as (y & Hy & Hf). exists y. split; [right |]; auto.
Qed.

Section Search.

Variable findall_sections : element -> string -> result (list element).

Lemma try_pattern_some root stops_dict direction jp l :
  try_pattern findall_sections root stops_dict direction jp = inr (Some l) ->
  l <> [] /\
  (exists d, find_below "Direction" jp = Some d /\
             direction_match direction (text d) = inr true) /\
  exists rs,
    pattern_refs findall_sections root
      (findall_below "JourneyPatternSectionRef" jp) = inr rs /\
    l = first_seen (omap (resolve stops_dict) rs).
Proof.
  unfold try_pattern.
  destruct (find_below "Direction" jp) as [d |]; [| discriminate].
  destruct (direction_match direction (text d)) as [e | [|]] eqn:Hm; cbn;
    try discriminate.
  destruct (visit_refs _ _ _ _ _) as [e | sq] eqn:Hv; cbn; [discriminate |].
  destruct sq as [| s0 sq]; [discriminate |].
  intros [= <-]. split; [discriminate |]. split; [eauto |].
  apply visit_refs_foldl in Hv as (rs & Hrs & ->).
  exists rs. split; [exact Hrs | apply foldl_push_nil].
Qed.


End Search.
End ExtractClaims.

(** ** Further properties: clock times *)

Module ClockExtras.
Import Timetable.

Lemma render_whole (m : Z) :
  0 <= m ->
  minutes_to_time_str (inject_Z m)
  = Py.format_02d (m / 60) +:+ ":" +:+ Py.format_02d (m mod 60).
Proof.
  intros Hm. unfold minutes_to_time_str.
  assert (0 <= inject_Z m)%Q as Hq
    by (change 0%Q with (inject_Z 0); rewrite <- Zle_Qle; exact Hm).
  rewrite (PyFacts.int_floordiv_60 _ Hq), (PyFacts.int_mod_60 _ Hq), Qfloor_Z.
  reflexivity.
Qed.

Lemma split_colon_join (s h m : string) :
  split_colon s = Some (h, m) -> s = h +:+ ":" +:+ m.
Proof.
  revert h. induction s as [| c s IH]; cbn [split_colon]; intros h;
    [discriminate |].
  destruct (Ascii.eqb_spec c ":") as [-> | _].
  - intros [= <- <-]. reflexivity.
  - destruct (split_colon s) as [[a b] |] eqn:E; [| discriminate].
    intros [= <- <-]. rewrite (IH a eq_refl). reflexivity.
Qed.

Lemma length_join (h m : string) :
  String.length (h +:+ ":" +:+ m) = (String.length h + S (String.length m))%nat.
Proof.
  induction h as [| c h IH]; [reflexivity |].
  change (String c h +:+ ":" +:+ m) with (String c (h +:+ ":" +:+ m)).
  cbn [String.length Nat.add]. f_equal. exact IH.
Qed.

(** Two digits read as a number render back as the same two digits. *)
Lemma two_digits_render (h : string) (v : Z) :
  String.length h = 2%nat -> read_digits h = Some v -> Py.format_02d v = h.
Proof.
  destruct h as [| a [| b [| ? ?]]]; try discriminate. intros _.
  unfold read_digits, NilZero.uint_of_string, NilEmpty.uint_of_string.
  destruct (uint_of_char b (Some Nil)) as [db |] eqn:Hb; [| discriminate].
  destruct (uint_of_char a (Some db)) as [da |] eqn:Ha; [| discriminate].
  intros [= <-].
  apply uint_of_char_spec in Hb. apply uint_of_char_spec in Ha.
  decompose [or and] Hb; subst; decompose [or and] Ha; subst; reflexivity.
Qed.

(** X1.  Every time the parser accepts has an hour from 0 to 23 and a
    minute from 0 to 59, so its minutes since midnight lie within one day;
    and two accepted times with the same minutes are the same time. *)
Theorem X1_parsed_time_within_day (s1 s2 : string) (t1 t2 : time) :
  parse_time s1 = inr t1 -> parse_time s2 = inr t2 ->
  (0 <= hour t1 <= 23 /\ 0 <= minute t1 <= 59 /\
   0 <= time_to_minutes t1 < 1440) /\
  (time_to_minutes t1 = time_to_minutes t2 -> t1 = t2).
Proof.
  intros H1 H2.
  pose proof (ClockFacts.parse_time_bounds _ _ H1) as [Hh1 Hm1].
  pose proof (ClockFacts.parse_time_bounds _ _ H2) as [Hh2 Hm2].
  split.
  - unfold time_to_minutes. lia.
  - destruct t1 as [h1 m1], t2 as [h2 m2]. unfold time_to_minutes.
    cbn [hour minute] in *. intros E.
    assert (h1 = h2) by lia. subst. f_equal. lia.
Qed.

Lemma minutes_to_time (t : string) (tobj : time) :
  parse_time t = inr tobj ->
  time_to_minutes tobj / 60 = hour tobj /\ time_to_minutes tobj mod 60 = minute tobj.
Proof.
  intros Hp. apply ClockFacts.parse_time_bounds in Hp as [Hh Hm].
  unfold time_to_minutes. split.
  - symmetry. apply (Z.div_unique _ 60 _ (minute tobj)); lia.
  - symmetry. apply (Z.mod_unique _ 60 (hour tobj) _); lia.
Qed.

(** X2.  Parsing a timetable string, converting to minutes and rendering
    gives a string that parses to the same time. *)
Theorem X2_render_parses_back (s : string) (tobj : time) :
  parse_time s = inr tobj ->
  parse_time (minutes_to_time_str (inject_Z (time_to_minutes tobj))) = inr tobj.
Proof.
  intros Hp.
  pose proof (ClockFacts.parse_time_minutes_range _ _ Hp) as Hrange.
  pose proof (minutes_to_time _ _ Hp) as [Hh Hm].
  rewrite ClockFacts.parse_time_render; rewrite ?Qfloor_Z.
  - rewrite Hh, Hm. destruct tobj; reflexivity.
  - change 0%Q with (inject_Z 0). rewrite <- Zle_Qle. lia.
  - lia.
Qed.

(** X3.  For a timetable string in the padded five-character form
    [HH:MM], parsing, converting to minutes and rendering gives the very
    same string back. *)
Theorem X3_padded_string_round_trip (s : string) (tobj : time) :
  parse_time s = inr tobj -> String.length s = 5%nat ->
  minutes_to_time_str (inject_Z (time_to_minutes tobj)) = s.
Proof.
  intros Hp Hlen.
  pose proof (ClockFacts.parse_time_minutes_range _ _ Hp) as Hrange.
  pose proof (minutes_to_time _ _ Hp) as [Hh Hm].
  rewrite render_whole by lia. rewrite Hh, Hm.
  unfold parse_time in Hp.
  destruct (split_colon s) as [[h m] |] eqn:Hsplit; [| discriminate].
  apply split_colon_join in Hsplit. subst s.
  rewrite length_join in Hlen.
  destruct (read_digits h) as [hv |] eqn:Hrh; [| discriminate].
  destruct (read_digits m) as [mv |] eqn:Hrm; [| discriminate].
  destruct (_ && _) eqn:E; [| discriminate].
  injection Hp as <-. cbn [hour minute].
  repeat (apply andb_prop in E; destruct E as [E ?]).
  assert (String.length h = 2%nat /\ String.length m = 2%nat) as [Lh Lm].
  { apply Nat.leb_le in E. match goal with
      H : (String.length m <=? 2)%nat = true |- _ => apply Nat.leb_le in H end.
    lia. }
  rewrite (two_digits_render h hv Lh Hrh), (two_digits_render m mv Lm Hrm).
  reflexivity.
Qed.


End ClockExtras.

(** ** Further properties: the projection *)

Module RunExtras.
Import Timetable RunFacts.

(** The arrival of one leg, by cases. *)

Lemma arrival_cases (last tm : Q) (sched : Z) :
  ((last + tm <= inject_Z sched)%Q ->
   (actual_arrival last tm sched == inject_Z sched)%Q) /\
  ((inject_Z sched <= last + tm)%Q ->
   (actual_arrival last tm sched == last + tm)%Q).
Proof.
  unfold actual_arrival, Py.max.
  destruct (Qlt_le_dec (last + tm) (inject_Z sched)); split; intros; lra.
Qed.

Lemma early_extra_zero (last tm : Q) (sched lst : Z) :
  (last + tm <= inject_Z sched)%Q -> (inject_Z lst <= last)%Q ->
  extra_traffic last tm sched (Some lst) = 0%Q.
Proof.
  intros H Hl. destruct (arrival_cases last tm sched) as [Hearly _].
  specialize (Hearly H).
  pose proof (PyFacts.inject_Z_sub sched lst _ eq_refl) as Hsub.
  unfold extra_traffic. cbn zeta. apply PyFacts.max_zero_nonpos. lra.
Qed.

Lemma for_each_pointwise {S : Type} (f g : nat -> S -> result S)
    (idx : list nat) (st : S) :
  (forall i st', i ∈ idx -> f i st' = g i st') ->
  for_each f idx st = for_each g idx st.
Proof.
  revert st. induction idx as [| i idx IH]; intros st H; cbn; [reflexivity |].
  rewrite (H i st) by left.
  destruct (g i st) as [e | st']; cbn; [reflexivity |].
  apply IH. intros j st'' Hj. apply H. right. exact Hj.
Qed.

Lemma last_scheduled_app (timetable more : list string) (i : nat) :
  (i <= length timetable)%nat ->
  last_scheduled (timetable ++ more) i = last_scheduled timetable i.
Proof.
  induction i as [| i IH]; intros Hi; cbn; [reflexivity |].
  unfold getitem. rewrite lookup_app_l by lia.
  destruct (timetable !! i) as [t |]; cbn; [| reflexivity].
  destruct (decide (t <> "x")); [reflexivity | apply IH; lia].
Qed.

Section Calls.

Variable World : Type.
Variable directions : World -> string -> string -> response * World.
Variable sleep : World -> World.

Abbreviation lookup := (get_travel_time World directions).
Abbreviation step := (loop_body World directions sleep).
Abbreviation run := (run_upto World directions sleep).
Abbreviation project := (predict_route_times World directions sleep).
Abbreviation fails := (lookup_fails World directions sleep).

Implicit Types (stops timetable : list string) (st : loop_state World)
  (c : client World) (i n : nat) (rows : list row).

Lemma run_prefix stops timetable c n st m :
  run stops timetable c n = inr st -> (m <= n)%nat ->
  exists st', run stops timetable c m = inr st'.
Proof.
  revert st. induction n as [| n IH]; intros st Hrun Hm.
  - replace m with 0%nat by lia. eauto.
  - destruct (decide (m = S n)) as [-> | Hne]; [eauto |].
    rewrite run_succ in Hrun. apply bind_inr in Hrun as (st0 & Hrun0 & _).
    apply (IH _ Hrun0). lia.
Qed.

Lemma run_entries stops timetable c n st i :
  run stops timetable c n = inr st -> (i <= n)%nat ->
  is_Some (stops !! i) /\ is_Some (timetable !! i).
Proof.
  intros Hrun Hi. destruct (run_prefix _ _ _ _ _ i Hrun Hi) as [st' Hrun'].
  destruct i as [| i].
  - apply run_inr_initial in Hrun' as [st0 H0].
    apply initial_state_inr in H0 as (? & ? & ? & Hs & Ht & _).
    rewrite Hs, Ht. eauto.
  - rewrite run_succ in Hrun'. apply bind_inr in Hrun' as (st0 & _ & Hstep).
    apply step_inv in Hstep as (s & t & Hs & Ht & _).
    rewrite Hs, Ht. eauto.
Qed.

(** X7.  Whenever the call returns, the route was non-empty, the
    timetable had an entry for every stop, and the first entry was a clock
    time.  So a timetable shorter than the list of stops, or a first entry
    marked ["x"], always makes the call raise. *)
Theorem X7_returns_only_on_shaped_input stops timetable c rows c' :
  predict_route_times World directions sleep stops timetable c = inr (rows, c') ->
  stops <> [] /\ (length stops <= length timetable)%nat /\
  exists t0 tobj,
    timetable !! 0%nat = Some t0 /\ t0 <> "x" /\ parse_time t0 = inr tobj.
Proof.
  rewrite project_run. intros H.
  apply bind_inr in H as (st & Hrun & _).
  pose proof Hrun as Hinit. apply run_inr_initial in Hinit as [st0 H0].
  apply initial_state_inr in H0 as (stop0 & t0 & tobj & Hs & Ht & Hp & _).
  assert (stops <> []) as Hne by (intros ->; discriminate).
  split; [exact Hne |]. split.
  - destruct (Nat.le_gt_cases (length stops) (length timetable)) as [? | Hlt];
      [assumption | exfalso].
    destruct (run_entries _ _ _ _ _ (length timetable) Hrun ltac:(lia))
      as [_ [t Ht']].
    apply lookup_lt_Some in Ht'. lia.
  - exists t0, tobj. repeat split; auto. intros ->. discriminate.
Qed.

(** X8.  What the call raises on the degenerate inputs: [IndexError] for
    an empty list of stops and for an empty timetable, [ValueError] when
    the first timetable entry is not a clock time (the marker ["x"]
    included). *)
Theorem X8_degenerate_inputs stops timetable c :
  (stops = [] ->
   predict_route_times World directions sleep stops timetable c = inl IndexError) /\
  (timetable = [] ->
   predict_route_times World directions sleep stops timetable c = inl IndexError) /\
  (forall stop0 t0 e,
     stops !! 0%nat = Some stop0 -> timetable !! 0%nat = Some t0 ->
     parse_time t0 = inl e ->
     predict_route_times World directions sleep stops timetable c = inl ValueError).
Proof.
  unfold predict_route_times, initial_state, getitem. repeat split.
  - intros ->. reflexivity.
  - intros ->. destruct (stops !! 0%nat); reflexivity.
  - intros stop0 t0 e Hs Ht Hp. rewrite Hs, Ht. cbn.
    assert (e = ValueError) as ->.
    { unfold parse_time in Hp.
      destruct (split_colon t0) as [[h m] |]; [| congruence].
      destruct (read_digits h), (read_digits m); try congruence.
      destruct (_ && _); congruence. }
    rewrite Hp. reflexivity.
Qed.

(** X9.  Timetable entries beyond the last stop are never read: appending
    entries to a timetable that already covers every stop changes nothing
    about the call, neither its rows nor its requests nor what it
    raises. *)
Theorem X9_surplus_timetable_ignored stops timetable more c :
  (length stops <= length timetable)%nat ->
  predict_route_times World directions sleep stops (timetable ++ more) c
  = predict_route_times World directions sleep stops timetable c.
Proof.
  intros Hlen. unfold predict_route_times.
  destruct stops as [| stop0 stops']; [reflexivity |].
  assert (initial_state World (stop0 :: stops') (timetable ++ more) c
          = initial_state World (stop0 :: stops') timetable c) as ->.
  { unfold initial_state, getitem. rewrite lookup_app_l by (cbn in Hlen; lia).
    reflexivity. }
  destruct (initial_state _ _ _ _) as [e | st0]; [reflexivity |].
  cbn [mbind result_bind].
  rewrite (for_each_pointwise (step (stop0 :: stops') (timetable ++ more))
             (step (stop0 :: stops') timetable)); [reflexivity |].
  intros i st Hi. unfold py_range in Hi. apply elem_of_seq in Hi.
  unfold loop_body, getitem.
  rewrite lookup_app_l by lia. rewrite last_scheduled_app by lia. reflexivity.
Qed.

Lemma run_row_count stops timetable c n st :
  run stops timetable c n = inr st ->
  (1 <= length (results st) <= S n)%nat.
Proof.
  revert st. induction n as [| n IH]; intros st H.
  - rewrite run_zero in H.
    apply initial_state_inr in H as (? & ? & ? & _ & _ & _ & ->). cbn. lia.
  - rewrite run_succ in H. apply bind_inr in H as (st0 & Hrun & Hstep).
    specialize (IH _ Hrun).
    apply step_inv in Hstep as (s & t & _ & _ & Hcase).
    destruct Hcase as [[_ ->] | [(_ & c' & _ & ->) | (_ & tm & c' & tobj & lst & _ & _ & _ & ->)]];
      cbn [results]; rewrite ?length_app; cbn; lia.
Qed.

(** X10.  Whenever the call returns, the table has at least the anchor
    row and never more rows than stops. *)
Theorem X10_row_count_bounds stops timetable c rows c' :
  predict_route_times World directions sleep stops timetable c = inr (rows, c') ->
  (1 <= length rows <= length stops)%nat.
Proof.
  rewrite project_run. intros H.
  apply bind_inr in H as (st & Hrun & [= <- _]).
  pose proof (run_row_count _ _ _ _ _ Hrun) as Hcount.
  apply run_inr_initial in Hrun as [st0 H0].
  apply initial_state_inr in H0 as (? & ? & ? & Hs & _).
  apply lookup_lt_Some in Hs. lia.
Qed.

(** A request between two served entries of the route, the origin
    earlier than the destination. *)
Lemma run_requests_on_route stops timetable c n st :
  run stops timetable c n = inr st ->
  (exists k, (k <= n)%nat /\
             served_stop stops timetable k = Some (last_used_stop st)) /\
  exists new,
    requests (gmaps st) = requests c ++ new /\
    Forall (fun od =>
              exists i j, (i < j <= n)%nat /\
                served_stop stops timetable i = Some (fst od) /\
                served_stop stops timetable j = Some (snd od)) new.
Proof.
  revert st. induction n as [| n IH]; intros st H.
  - rewrite run_zero in H.
    apply initial_state_inr in H as (stop0 & t0 & tobj & Hs & Ht & Hp & ->).
    cbn [last_used_stop gmaps]. split.
    + exists 0%nat. split; [lia |]. unfold served_stop. rewrite Ht.
      destruct (decide (t0 <> "x")) as [_ | Hx]; [exact Hs |].
      exfalso. apply Hx. intros ->. discriminate.
    + exists []. rewrite app_nil_r. split; [reflexivity | constructor].
  - rewrite run_succ in H. apply bind_inr in H as (st0 & Hrun & Hstep).
    destruct (IH _ Hrun) as ((k & Hk & Hlast) & new & Hreq & Hall).
    assert (Forall (fun od =>
              exists i j, (i < j <= S n)%nat /\
                served_stop stops timetable i = Some (fst od) /\
                served_stop stops timetable j = Some (snd od)) new) as Hall'.
    { eapply Forall_impl; [exact Hall |]. cbn. intros od (i & j & Hij & Hi & Hj).
      exists i, j. split; [lia | auto]. }
    apply step_inv in Hstep as (s & t & Hs & Ht & Hcase).
    assert (t <> "x" -> served_stop stops timetable (S n) = Some s) as Hserved.
    { intros Hx. unfold served_stop. rewrite Ht.
      destruct (decide (t <> "x")); [exact Hs | contradiction]. }
    assert (forall o c',
              lookup (gmaps st0) (last_used_stop st0) s = (o, c') -> t <> "x" ->
              exists new',
                requests c' = requests c ++ new' /\
                Forall (fun od =>
                  exists i j, (i < j <= S n)%nat /\
                    served_stop stops timetable i = Some (fst od) /\
                    served_stop stops timetable j = Some (snd od)) new') as Hsent.
    { intros o c' Hl Hx. apply lookup_requests in Hl.
      exists (new ++ [(last_used_stop st0, s)]). rewrite Hl, Hreq, app_assoc.
      split; [reflexivity |]. apply Forall_app. split; [exact Hall' |].
      apply Forall_cons. split; [| constructor].
      exists k, (S n). cbn [fst snd]. split; [lia | auto]. }
    destruct Hcase as [[_ ->] | [(Hx & c' & Hl & ->) | (Hx & tm & c' & tobj & lst & Hl & _ & _ & ->)]];
      cbn [last_used_stop gmaps requests].
    + split; [exists k; split; [lia | exact Hlast] | eauto].
    + split; [exists k; split; [lia | exact Hlast] | eapply Hsent; eauto].
    + split; [exists (S n); split; [lia | auto] | eapply Hsent; eauto].
Qed.

(** X11.  Whenever the call returns, every request it has sent goes from
    one served stop of the route to a later served stop of the route. *)
Theorem X11_requests_follow_the_route stops timetable c rows c' :
  predict_route_times World directions sleep stops timetable c = inr (rows, c') ->
  exists new,
    requests c' = requests c ++ new /\
    Forall (fun od =>
              exists i j, (i < j < length stops)%nat /\
                served_stop stops timetable i = Some (fst od) /\
                served_stop stops timetable j = Some (snd od)) new.
Proof.
  rewrite project_run. intros H.
  apply bind_inr in H as (st & Hrun & [= _ <-]).
  destruct (run_requests_on_route _ _ _ _ _ Hrun) as (_ & new & Hreq & Hall).
  exists new. split; [exact Hreq |].
  pose proof Hrun as Hinit. apply run_inr_initial in Hinit as [st0 H0].
  apply initial_state_inr in H0 as (? & ? & ? & Hs & _).
  apply lookup_lt_Some in Hs.
  eapply Forall_impl; [exact Hall |]. cbn. intros od (i & j & Hij & Hi & Hj).
  exists i, j. split; [lia | auto].
Qed.

Lemma run_not_ahead stops timetable c n st :
  run stops timetable c n = inr st ->
  (forall i, (i <= n)%nat -> fails stops timetable c i = false) ->
  exists lst,
    last_scheduled timetable (S n) = inr (Some lst) /\
    (inject_Z lst <= last_used_time st)%Q.
Proof.
  revert st. induction n as [| n IH]; intros st H Hok.
  - rewrite run_zero in H.
    apply initial_state_inr in H as (stop0 & t0 & tobj & _ & Ht & Hp & ->).
    exists (time_to_minutes tobj). cbn [last_used_time]. split; [| lra].
    rewrite (RunClaims.last_scheduled_step _ _ _ Ht).
    destruct (decide (t0 <> "x")) as [_ | Hx]; [rewrite Hp; reflexivity |].
    exfalso. apply Hx. intros ->. discriminate.
  - rewrite run_succ in H. apply bind_inr in H as (st0 & Hrun & Hstep).
    destruct (IH _ Hrun ltac:(intros; apply Hok; lia)) as (lst & Hb & Hle).
    specialize (Hok (S n) ltac:(lia)).
    apply step_inv in Hstep as (s & t & Hs & Ht & Hcase).
    cbn [lookup_fails] in Hok. rewrite Hrun, Hs, Ht in Hok.
    rewrite (RunClaims.last_scheduled_step _ _ _ Ht).
    destruct Hcase as [[-> ->] | [(Hx & c' & Hl & ->) | (Hx & tm & c' & tobj & lst' & _ & Hp & _ & ->)]];
      cbn [last_used_time].
    + destruct (decide ("x" <> "x")); [congruence |]. eauto.
    + destruct (decide (t <> "x")); [| contradiction].
      rewrite Hl in Hok. discriminate.
    + destruct (decide (t <> "x")); [| contradiction].
      rewrite Hp. cbn. eexists. split; [reflexivity |].
      apply PyFacts.max_ge_r.
Qed.


End Calls.
End RunExtras.

(** ** Further properties: the stop extraction *)

Module ExtractExtras.
Import ExtractStops Shapes ExtractClaims.

Implicit Types (stops_dict : gmap (option string) (option string))
  (l : list stop) (s : stop).

(** *** The stop-point table *)

Lemma build_complete stop_points acc :
  Forall complete stop_points ->
  exists stops_dict, build_stops_dict stop_points acc = inr stops_dict.
Proof.
  intros H. revert acc. induction H as [| sp sps [[ref Hr] [cn Hc]] _ IH];
    intros acc; cbn.
  - eauto.
  - rewrite Hr, Hc. apply IH.
Qed.

Lemma build_incomplete stop_points acc :
  Exists (fun sp => ~ complete sp) stop_points ->
  build_stops_dict stop_points acc = inl AttributeError.
Proof.
  intros H. revert acc. induction stop_points as [| sp sps IH]; intros acc.
  - apply Exists_nil in H. contradiction.
  - cbn. destruct (find_child "StopPointRef" sp) as [ref |] eqn:Hr; [| reflexivity].
    destruct (find_child "CommonName" sp) as [cn |] eqn:Hc; [| reflexivity].
    apply Exists_cons in H as [H | H].
    + exfalso. apply H. unfold complete. rewrite Hr, Hc. eauto.
    + apply IH. exact H.
Qed.

Lemma build_keeps stop_points acc stops_dict k :
  build_stops_dict stop_points acc = inr stops_dict ->
  Forall (fun sp => declared_code sp <> Some k) stop_points ->
  stops_dict !! k = acc !! k.
Proof.
  revert acc. induction stop_points as [| sp sps IH]; intros acc; cbn.
  - intros [= <-] _. reflexivity.
  - destruct (find_child "StopPointRef" sp) as [ref |] eqn:Hr; [| discriminate].
    destruct (find_child "CommonName" sp) as [cn |]; [| discriminate].
    intros H Hall. apply Forall_cons in Hall as [Hsp Hall].
    rewrite (IH _ H Hall). apply lookup_insert_ne.
    intros E. apply Hsp. unfold declared_code. rewrite Hr, E. reflexivity.
Qed.

Lemma build_last_wins before sp after acc stops_dict ref common_name :
  build_stops_dict (before ++ sp :: after) acc = inr stops_dict ->
  find_child "StopPointRef" sp = Some ref ->
  find_child "CommonName" sp = Some common_name ->
  Forall (fun sp' => declared_code sp' <> Some (text ref)) after ->
  stops_dict !! text ref = Some (text common_name).
Proof.
  revert acc. induction before as [| sp0 before IH]; intros acc; cbn.
  - intros H Hr Hc Hafter. rewrite Hr, Hc in H.
    rewrite (build_keeps _ _ _ _ H Hafter). apply lookup_insert_eq.
  - destruct (find_child "StopPointRef" sp0); [| discriminate].
    destruct (find_child "CommonName" sp0); [| discriminate].
    apply IH.
Qed.

Lemma build_size stop_points acc stops_dict :
  build_stops_dict stop_points acc = inr stops_dict ->
  (size stops_dict <= size acc + length stop_points)%nat.
Proof.
  revert acc. induction stop_points as [| sp sps IH]; intros acc; cbn.
  - intros [= <-]. lia.
  - destruct (find_child "StopPointRef" sp) as [ref |]; [| discriminate].
    destruct (find_child "CommonName" sp) as [cn |]; [| discriminate].
    intros H. apply IH in H. rewrite map_size_insert in H.
    destruct (acc !! text ref); cbn in H; lia.
Qed.

(** *** The search *)

Lemma first_hit_none {A : Type} (f : A -> result (option (list stop)))
    (xs : list A) :
  (forall x, x ∈ xs -> f x = inr None) -> first_hit f xs = inr None.
Proof.
  induction xs as [| x xs IH]; intros H; cbn; [reflexivity |].
  rewrite (H x) by left. cbn. apply IH. intros y Hy. apply H. right. exact Hy.
Qed.

Section Search.

Variable findall_sections : element -> string -> result (list element).

Abbreviation extract := (extract_stops_from_xml findall_sections).

(** What a returned sequence is made of. *)
Lemma extract_inr root route_name direction l :
  extract root route_name direction = inr l ->
  exists stops_dict,
    build_stops_dict (findall_below "AnnotatedStopPointRef" root) ∅
    = inr stops_dict /\
    NoDup l /\
    forall s, s ∈ l -> stops_dict !! atco_code s = Some (name s).
Proof.
  unfold extract_stops_from_xml.
  destruct (build_stops_dict _ ∅) as [e | stops_dict] eqn:Hd; cbn; [discriminate |].
  destruct (first_hit _ _) as [e | found] eqn:Hf; cbn; [discriminate |].
  intros Hret. exists stops_dict. split; [reflexivity |].
  destruct found as [route_stops |]; injection Hret as <-.
  2:{ split; [constructor |]. intros s Hs. apply elem_of_nil in Hs. contradiction. }
  apply first_hit_some in Hf as (service & _ & Hf).
  unfold try_service in Hf.
  apply first_hit_some in Hf as (line & _ & Hf).
  destruct (decide (text line = Some route_name)); [| discriminate].
  apply first_hit_some in Hf as (jp & _ & Hf).
  apply (try_pattern_some findall_sections) in Hf as (_ & _ & rs & _ & ->).
  split; [apply first_seen_NoDup |].
  intros s Hs. apply (proj1 (first_seen_elem _ _)) in Hs.
  exact (resolved_in_table _ _ _ Hs).
Qed.

(** X13.  One [AnnotatedStopPointRef] without a [StopPointRef] or without
    a [CommonName], anywhere in the document, makes every extraction
    raise [AttributeError], whatever the route and the direction. *)
Theorem X13_incomplete_stop_point_raises root route_name direction :
  Exists (fun sp => ~ complete sp) (findall_below "AnnotatedStopPointRef" root) ->
  extract_stops_from_xml findall_sections root route_name direction
  = inl AttributeError.
Proof.
  intros H. unfold extract_stops_from_xml.
  rewrite (build_incomplete _ _ H). reflexivity.
Qed.

(** X14.  When a stop code is declared more than once, a returned stop
    carries the name of the last declaration of its code. *)
Theorem X14_last_declaration_names_the_stop root route_name direction l s
    before sp after ref common_name :
  extract_stops_from_xml findall_sections root route_name direction = inr l ->
  s ∈ l ->
  findall_below "AnnotatedStopPointRef" root = before ++ sp :: after ->
  find_child "StopPointRef" sp = Some ref ->
  find_child "CommonName" sp = Some common_name ->
  text ref = atco_code s ->
  Forall (fun sp' => declared_code sp' <> Some (atco_code s)) after ->
  name s = text common_name.
Proof.
  intros Hret Hs Hsplit Hr Hc Hcode Hafter.
  apply extract_inr in Hret as (stops_dict & Hd & _ & Htab).
  specialize (Htab s Hs). rewrite Hsplit in Hd. rewrite <- Hcode in Hafter.
  pose proof (build_last_wins _ _ _ _ _ _ _ Hd Hr Hc Hafter) as Hlast.
  rewrite Hcode in Hlast. congruence.
Qed.

(** X15.  Whenever the extraction returns, no stop code occurs twice in
    the sequence (not only no name-and-code pair), and the sequence is no
    longer than the list of [AnnotatedStopPointRef]s of the document. *)
Theorem X15_codes_unique_and_bounded root route_name direction l :
  extract_stops_from_xml findall_sections root route_name direction = inr l ->
  NoDup (atco_code <$> l) /\
  (length l <= length (findall_below "AnnotatedStopPointRef" root))%nat.
Proof.
  intros Hret. apply extract_inr in Hret as (stops_dict & Hd & Hnd & Htab).
  assert (NoDup (atco_code <$> l)) as Hcodes.
  { apply NoDup_fmap_2_strong; [| exact Hnd].
    intros [n1 c1] [n2 c2] H1 H2 E. cbn in E. subst c2.
    pose proof (Htab _ H1) as T1. pose proof (Htab _ H2) as T2. cbn in T1, T2.
    congruence. }
  split; [exact Hcodes |].
  assert (atco_code <$> l ⊆+ (map_to_list stops_dict).*1) as Hsub.
  { apply NoDup_submseteq; [exact Hcodes |].
    intros k Hk. apply list_elem_of_fmap in Hk as (s & -> & Hs).
    apply list_elem_of_fmap. exists (atco_code s, name s). split; [reflexivity |].
    apply elem_of_map_to_list, Htab, Hs. }
  apply submseteq_length in Hsub.
  rewrite !length_fmap, length_map_to_list in Hsub.
  apply build_size in Hd. rewrite map_size_empty in Hd. lia.
Qed.

(** X16.  With every stop point complete, the extraction returns the
    empty list, and never consults a journey-pattern section, when the
    direction is neither ["inbound"] nor ["outbound"] (any other spelling
    or letter case included) or when no service has a line of the given
    name. *)
Theorem X16_no_match_gives_empty_list root route_name direction :
  Forall complete (findall_below "AnnotatedStopPointRef" root) ->
  (direction <> "inbound" /\ direction <> "outbound")
  \/ no_such_line root route_name ->
  extract_stops_from_xml findall_sections root route_name direction = inr [].
Proof.
  intros Hc Hno. unfold extract_stops_from_xml.
  destruct (build_complete _ ∅ Hc) as [stops_dict ->]. cbn.
  rewrite first_hit_none; [reflexivity |].
  intros service Hservice. unfold try_service.
  apply first_hit_none. intros line Hline.
  destruct (decide (text line = Some route_name)) as [Hname |]; [| reflexivity].
  destruct Hno as [[Hin Hout] | Hno]; [| exfalso; exact (Hno _ _ Hservice Hline Hname)].
  apply first_hit_none. intros jp _. unfold try_pattern.
  destruct (find_below "Direction" jp) as [d |]; [| reflexivity].
  unfold direction_match.
  destruct (decide (direction = "inbound")); [contradiction |].
  destruct (decide (direction = "outbound")); [contradiction |].
  reflexivity.
Qed.

End Search.

(** *** Direction texts *)

Lemma lower_app (a b : string) : lower (a +:+ b) = lower a +:+ lower b.
Proof.
  induction a as [| c a IH]; [reflexivity |].
  change (String c a +:+ b) with (String c (a +:+ b)).
  cbn [lower]. rewrite IH. reflexivity.
Qed.

Lemma append_assoc (a b c : string) : (a +:+ b) +:+ c = a +:+ b +:+ c.
Proof.
  induction a as [| x a IH]; [reflexivity |].
  change (String x a +:+ b) with (String x (a +:+ b)).
  change (String x (a +:+ b) +:+ c) with (String x ((a +:+ b) +:+ c)).
  rewrite IH. reflexivity.
Qed.

Lemma prefix_app (a b : string) : String.prefix a (a +:+ b) = true.
Proof.
  induction a as [| c a IH]; [destruct b; reflexivity |].
  change (String c a +:+ b) with (String c (a +:+ b)).
  cbn [String.prefix]. destruct (ascii_dec c c); [exact IH | contradiction].
Qed.

Lemma contains_unfold (needle haystack : string) :
  contains needle haystack
  = String.prefix needle haystack
    || match haystack with
       | EmptyString => false
       | String _ r => contains needle r
       end.
Proof. destruct haystack; reflexivity. Qed.

Lemma contains_here (needle post : string) :
  contains needle (needle +:+ post) = true.
Proof. rewrite contains_unfold, prefix_app. reflexivity. Qed.

Lemma contains_inside (needle pre post : string) :
  contains needle (pre +:+ needle +:+ post) = true.
Proof.
  induction pre as [| c pre IH]; [exact (contains_here needle post) |].
  change (String c pre +:+ needle +:+ post)
    with (String c (pre +:+ needle +:+ post)).
  cbn [contains]. rewrite IH. apply orb_true_r.
Qed.

Lemma contains_lower (word needle pre post : string) :
  lower word = needle ->
  contains needle (lower (pre +:+ word +:+ post)) = true.
Proof.
  intros <-. rewrite !lower_app. apply contains_inside.
Qed.

(** X17.  Direction texts are matched on substrings, in any letter case
    and at any position: a text with the word inbound or Oxford matches
    ["inbound"], one with the word outbound or London matches
    ["outbound"]; so a text that names both cities matches both
    directions. *)
Theorem X17_direction_words (pre word post : string) :
  (lower word = "inbound" \/ lower word = "oxford" ->
   direction_match "inbound" (Some (pre +:+ word +:+ post)) = inr true) /\
  (lower word = "outbound" \/ lower word = "london" ->
   direction_match "outbound" (Some (pre +:+ word +:+ post)) = inr true) /\
  (forall mid word' post',
     lower word = "oxford" -> lower word' = "london" ->
     post = mid +:+ word' +:+ post' ->
     direction_match "inbound" (Some (pre +:+ word +:+ post)) = inr true /\
     direction_match "outbound" (Some (pre +:+ word +:+ post)) = inr true).
Proof.
  assert (forall needle, lower word = needle ->
            contains needle (lower (pre +:+ word +:+ post)) = true) as Hw
    by (intros; apply contains_lower; assumption).
  split; [| split].
  - intros [H | H]; unfold direction_match; cbn [decide]; cbn;
      rewrite (Hw _ H); rewrite ?orb_true_r; reflexivity.
  - intros [H | H]; unfold direction_match; cbn;
      rewrite (Hw _ H); rewrite ?orb_true_r; reflexivity.
  - intros mid word' post' H H' ->. split.
    + unfold direction_match; cbn. rewrite (Hw _ H), ?orb_true_r. reflexivity.
    + unfold direction_match; cbn.
      replace (pre +:+ word +:+ mid +:+ word' +:+ post')
        with ((pre +:+ word +:+ mid) +:+ word' +:+ post').
      * rewrite (contains_lower word' "london" _ _ H'), ?orb_true_r. reflexivity.
      * rewrite !append_assoc. reflexivity.
Qed.

End ExtractExtras.

(** ** Further properties: the projection in binary64 *)

Module FloatExtras.
Import Timetable Timetable64 RunFacts Run64Facts.

Section Calls.

Variable World : Type.
Variable directions : World -> string -> string -> response * World.
Variable sleep : World -> World.

Abbreviation lookup := (get_travel_time World directions).
Abbreviation step := (loop_body World directions sleep).
Abbreviation run := (run_upto World directions sleep).
Abbreviation project := (predict_route_times World directions sleep).

Implicit Types (stops timetable : list string) (st : loop_state World)
  (c : client World) (i n : nat) (rows : list row).

(** *** What a call can raise *)

Lemma run_or_raise stops timetable c n :
  input_ok stops timetable -> (n < length stops)%nat ->
  (exists st, run stops timetable c n = inr st) \/
  (exists m st s t tobj tm c' e,
      (m < n)%nat /\
      run stops timetable c m = inr st /\
      stops !! S m = Some s /\ timetable !! S m = Some t /\ t <> "x" /\
      parse_time t = inr tobj /\
      lookup (gmaps st) (last_used_stop st) s = (Some tm, c') /\
      minutes_to_time_str
        (actual_arrival (last_used_time st) tm (time_to_minutes tobj)) = inl e /\
      run stops timetable c n = inl e).
Proof.
  intros (Hne & Hlen & Hwf & Hfirst).
  induction n as [| n IH]; intros Hn.
  - left.
    destruct (lookup_lt_is_Some_2 stops 0 Hn) as [stop0 Hs].
    destruct (lookup_lt_is_Some_2 timetable 0 ltac:(lia)) as [t0 Ht].
    assert (exists tobj, parse_time t0 = inr tobj) as [tobj Hp].
    { unfold well_formed in Hwf. rewrite Forall_lookup in Hwf.
      destruct (Hwf _ _ Ht) as [-> | H]; [contradiction | exact H]. }
    eexists. apply run_initial; eassumption.
  - destruct (IH ltac:(lia))
      as [[st Hrun] | (m & st & s & t & tobj & tm & c' & e & Hm & Hrun & Hs & Ht
                       & Hx & Hp & Hl & Hr & Hraise)].
    2:{ right. exists m, st, s, t, tobj, tm, c', e.
        repeat (split; [first [assumption | lia] |]).
        rewrite run64_succ, Hraise. reflexivity. }
    destruct (lookup_lt_is_Some_2 stops (S n) Hn) as [s Hs].
    destruct (lookup_lt_is_Some_2 timetable (S n) ltac:(lia)) as [t Ht].
    destruct (decide (t = "x")) as [-> | Hx].
    { left. eexists. rewrite run64_succ, Hrun. cbn [mbind result_bind].
      apply (step64_unserved _ _ _ _ _ _ _ _ Hs Ht). }
    destruct (lookup (gmaps st) (last_used_stop st) s) as [[tm |] c'] eqn:Hl.
    2:{ left. eexists. rewrite run64_succ, Hrun. cbn [mbind result_bind].
        eapply step64_failed; eassumption. }
    assert (exists tobj, parse_time t = inr tobj) as [tobj Hp].
    { unfold well_formed in Hwf. rewrite Forall_lookup in Hwf.
      destruct (Hwf _ _ Ht) as [-> | H]; [contradiction | exact H]. }
    destruct (served_entry World directions sleep
                _ _ _ _ _ _ _ _ _ _ Hwf Hrun Hs Ht Hx Hl Hp)
      as (lst & _ & Hrun').
    destruct (minutes_to_time_str
                (actual_arrival (last_used_time st) tm (time_to_minutes tobj)))
      as [e | p] eqn:Hr.
    + right. exists n, st, s, t, tobj, tm, c', e.
      repeat (split; [first [assumption | lia] |]). exact Hrun'.
    + left. eexists. exact Hrun'.
Qed.

(** X6.  On an input that meets the input constraint the call can raise
    in one way only: an answered lookup makes the arrival of a served
    entry a NaN or plus infinity, rendering that arrival raises
    [ValueError], and the error leaves the call.  Otherwise, whatever the
    service answers, the call returns. *)
Theorem X6_raises_only_on_non_finite_arrival stops timetable c :
  input_ok stops timetable ->
  (exists rows c',
      Timetable64.predict_route_times World directions sleep stops timetable c
      = inr (rows, c')) \/
  (exists n st s t tobj tm c',
      (S n < length stops)%nat /\
      Timetable64.run_upto World directions sleep stops timetable c n = inr st /\
      stops !! S n = Some s /\ timetable !! S n = Some t /\ t <> "x" /\
      parse_time t = inr tobj /\
      Timetable64.get_travel_time World directions
        (gmaps st) (last_used_stop st) s = (Some tm, c') /\
      let arrival :=
        Binary64.max (Binary64.add (last_used_time st) tm)
          (Binary64.Fin (inject_Z (time_to_minutes tobj))) in
      (arrival = Binary64.NaN \/ arrival = Binary64.Inf false) /\
      Timetable64.minutes_to_time_str arrival = inl ValueError /\
      Timetable64.predict_route_times World directions sleep stops timetable c
      = inl ValueError).
Proof.
  intros Hok.
  assert (length stops <> 0)%nat as Hne.
  { destruct Hok as (Hne & _). destruct stops; [contradiction | cbn; lia]. }
  destruct (run_or_raise stops timetable c (length stops - 1) Hok ltac:(lia))
    as [[st Hrun] | (m & st & s & t & tobj & tm & c' & e & Hm & Hrun & Hs & Ht
                     & Hx & Hp & Hl & Hr & Hraise)].
  - left. exists (results st), (gmaps st). rewrite project64_run, Hrun. reflexivity.
  - right. exists m, st, s, t, tobj, tm, c'.
    split; [lia |]. split; [exact Hrun |]. split; [exact Hs |].
    split; [exact Ht |]. split; [exact Hx |]. split; [exact Hp |].
    split; [exact Hl |]. cbv zeta.
    destruct (arrival_raises (last_used_time st) tm (time_to_minutes tobj))
      as [[a Ha] | [Hnf Hv]].
    + destruct (arrival_renders _ _ _ _ _ Hp Ha) as (_ & [p Hren] & _).
      rewrite Ha, Hren in Hr. discriminate.
    + unfold actual_arrival in *. rewrite Hv in Hr. injection Hr as <-.
      split; [exact Hnf |]. split; [exact Hv |].
      rewrite project64_run, Hraise. reflexivity.
Qed.

End Calls.
End FloatExtras.

(** ** The claims on concrete routes and documents *)

Module Checks.
Import Timetable ExtractStops Examples.

Lemma well_formed_A_C : well_formed ["07:00"; "07:45"].
Proof.
  unfold well_formed.
  constructor; [right; eexists; reflexivity |].
  constructor; [right; eexists; reflexivity | constructor].
Defined.

(** C3 on the route A 07:00, B 07:15 when no route is found to B. *)
Lemma C3_witness :
  exists st',
    run_upto unit no_route id ["A"; "B"] ["07:00"; "07:15"] (fresh tt) 1 = inr st' /\
    results st' = results (state_A tt) /\
    last_used_stop st' = last_used_stop (state_A tt) /\
    last_used_time st' = last_used_time (state_A tt) /\
    requests (gmaps st')
    = requests (gmaps (state_A tt)) ++ [(last_used_stop (state_A tt), "B")].
Proof.
  apply (StepClaims.C3_failed_lookup unit no_route id
           ["A"; "B"] ["07:00"; "07:15"] (fresh tt) 0 (state_A tt) "B" "07:15"
           {| world := tt; requests := [("A", "B")] |}).
  - reflexivity.
  - reflexivity.
  - reflexivity.
  - discriminate.
  - reflexivity.
Defined.

(** C4 on the route A 07:00, B unserved. *)
Lemma C4_witness :
  exists stop0 t0 rest,
    ["A"; "B"] !! 0%nat = Some stop0 /\ ["07:00"; "x"] !! 0%nat = Some t0 /\
    t0 <> "x" /\
    [anchor_A; dash_row "B"]
    = {| Stop := stop0; Timetable := t0; Extra_Traffic := Num 0;
         Predicted_Arrival := t0 |} :: rest.
Proof.
  apply (RunClaims.C4_anchor_row unit (steady 900) id
           ["A"; "B"] ["07:00"; "x"] (fresh tt)
           [anchor_A; dash_row "B"] (fresh tt)).
  reflexivity.
Defined.

(** C5 on the route A 07:00, B unserved. *)
Lemma C5_witness :
  exists st',
    run_upto unit (steady 900) id ["A"; "B"] ["07:00"; "x"] (fresh tt) 1 = inr st' /\
    results st' = results (state_A tt) ++
      [ {| Stop := "B"; Timetable := "-"; Extra_Traffic := Str "-";
           Predicted_Arrival := "-" |} ] /\
    gmaps st' = gmaps (state_A tt) /\
    last_used_stop st' = last_used_stop (state_A tt) /\
    last_used_time st' = last_used_time (state_A tt).
Proof.
  apply (StepClaims.C5_unserved_entry unit (steady 900) id
           ["A"; "B"] ["07:00"; "x"] (fresh tt) 0 (state_A tt) "B").
  - reflexivity.
  - reflexivity.
  - reflexivity.
Defined.

Lemma steady_answers (secs : Q) (c : client unit) (origin destination : string) :
  get_travel_time unit (steady secs) c origin destination
  = (Some (secs / 60)%Q,
     {| world := world c; requests := requests c ++ [(origin, destination)] |}).
Proof. reflexivity. Defined.

Lemma input_ok_A_B_C :
  input_ok ["A"; "B"; "C"] ["07:00"; "x"; "07:15"].
Proof.
  unfold input_ok, well_formed. split; [discriminate |].
  split; [cbn; lia |]. split; [| discriminate].
  constructor; [right; eexists; reflexivity |].
  constructor; [left; reflexivity |].
  constructor; [right; eexists; reflexivity | constructor].
Defined.


(** C8 on the same route: the one request goes to B. *)
Lemma C8_witness :
  exists new,
    requests {| world := tt; requests := [("A", "B")] |}
    = requests (fresh tt) ++ new /\
    map snd new = served_after_anchor ["A"; "B"; "C"] ["07:00"; "07:15"; "x"].
Proof.
  apply (RunClaims.C8_one_lookup_per_served_entry unit no_route id
           ["A"; "B"; "C"] ["07:00"; "07:15"; "x"] (fresh tt)
           [anchor_A; dash_row "C"] {| world := tt; requests := [("A", "B")] |}).
  reflexivity.
Defined.

(** The claim C8 as stated fails on the route of the single stop A: one
    stop is served and the call sends no request. *)
Lemma C8_counterexample :
  exists rows c',
    predict_route_times unit (steady 900) id ["A"] ["07:00"] (fresh tt)
    = inr (rows, c') /\
    length (filter (fun t => t <> "x") ["07:00"]) = 1%nat /\
    length (requests c') = 0%nat.
Proof.
  eexists _, _. split; [reflexivity |]. split; reflexivity.
Qed.



End Checks.

(** ** The claims about numbers on concrete routes *)

Module Checks64.
Import Timetable Timetable64 Examples64.



(** C2 on the same route as C1: the extra traffic shown for C is 5.0. *)
Lemma C2_witness :
  let scheduled := time_to_minutes {| hour := 7; minute := 45 |} in
  let arrival :=
    Binary64.max (Binary64.add (last_used_time (state_A tt)) (Binary64.Fin 50))
      (Binary64.Fin (inject_Z scheduled)) in
  (forall a, arrival = Binary64.Fin a ->
     exists st',
       run_upto unit (steady (JInt 3000)) id ["A"; "C"] ["07:00"; "07:45"]
         (Examples.fresh tt) 1 = inr st') /\
  (forall st',
     run_upto unit (steady (JInt 3000)) id ["A"; "C"] ["07:00"; "07:45"]
       (Examples.fresh tt) 1 = inr st' ->
     exists (r : row) extra,
       results st' = results (state_A tt) ++ [r] /\
       Stop r = "C" /\ Timetable r = "07:45" /\
       Extra_Traffic r = Num (Binary64.round1 extra) /\
       Binary64.nonneg extra /\ Binary64.nonneg (Binary64.round1 extra) /\
       ((exists j tj tobj_j,
           (j < 1)%nat /\ ["07:00"; "07:45"] !! j = Some tj /\ tj <> "x" /\
           (forall k, (j < k < 1)%nat -> ["07:00"; "07:45"] !! k = Some "x") /\
           parse_time tj = inr tobj_j /\
           extra = Binary64.max (Binary64.Fin 0)
                     (Binary64.sub
                        (Binary64.sub arrival (last_used_time (state_A tt)))
                        (Binary64.Fin
                           (inject_Z (scheduled - time_to_minutes tobj_j)))))
        \/ ((forall k, (k < 1)%nat -> ["07:00"; "07:45"] !! k = Some "x") /\
            extra = Binary64.Fin 0))).
Proof.
  apply (FloatClaims.C2_extra_delay unit (steady (JInt 3000)) id
           ["A"; "C"] ["07:00"; "07:45"] (Examples.fresh tt) 0 (state_A tt)
           "C" "07:45" {| hour := 7; minute := 45 |} (Binary64.Fin 50)
           {| world := tt; requests := [("A", "C")] |}).
  - exact Checks.well_formed_A_C.
  - reflexivity.
  - reflexivity.
  - reflexivity.
  - discriminate.
  - vm_compute. reflexivity.
  - reflexivity.
Defined.

Lemma quarter_of_an_hour :
  minutes_of (JInt 900) = inr (Binary64.Fin 15).
Proof. vm_compute. reflexivity. Defined.

Lemma steady_quarter (c : client unit) (origin destination : string) :
  get_travel_time unit (steady (JInt 900)) c origin destination
  = (Some (Binary64.Fin 15),
     {| world := world c; requests := requests c ++ [(origin, destination)] |}).
Proof.
  unfold get_travel_time, steady, one_leg. cbn [legs duration_in_traffic].
  rewrite quarter_of_an_hour. reflexivity.
Defined.

(** C6 on the route A 07:00, B unserved, C 07:15, the service answering
    900 seconds: the leg from A to C is scheduled at 15 minutes. *)
Lemma C6_witness :
  exists rows c',
    predict_route_times unit (steady (JInt 900)) id
      ["A"; "B"; "C"] ["07:00"; "x"; "07:15"] (Examples.fresh tt)
    = inr (rows, c') /\
    length rows = length ["A"; "B"; "C"] /\
    Forall2 on_schedule (zip ["A"; "B"; "C"] ["07:00"; "x"; "07:15"]) rows.
Proof.
  apply (FloatClaims.C6_round_trip unit (steady (JInt 900)) id
           ["A"; "B"; "C"] ["07:00"; "x"; "07:15"] (Examples.fresh tt)).
  - exact Checks.input_ok_A_B_C.
  - intros n st s t tobj lst Hrun Hs Ht Hx Hp Hb.
    rewrite steady_quarter. eexists _, _. split; [reflexivity |].
    destruct n as [| [| n]].
    + injection Ht as <-. contradiction.
    + injection Ht as <-. injection Hp as <-. injection Hb as <-. reflexivity.
    + discriminate.
Defined.

(** *** Sums and differences are rounded as the interpreter rounds them *)

(** Lookups of 1370, 414 and 2236 seconds from 07:00 add up to 67 minutes
    in exact arithmetic; the float sum falls just short of 08:07. *)
Lemma float_sum_shows_08_06 :
  exists rows c',
    predict_route_times (list number) scripted id
      ["A"; "B"; "C"; "D"] ["07:00"; "07:20"; "07:25"; "08:00"]
      (Examples.fresh [JInt 1370; JInt 414; JInt 2236]) = inr (rows, c') /\
    map Predicted_Arrival rows = ["07:00"; "07:22"; "07:29"; "08:06"].
Proof. eexists _, _. split; vm_compute; reflexivity. Qed.

(** A lookup of 603 seconds for a leg of 10 minutes is 0.05 minutes late in
    exact arithmetic; the float difference is above 0.05 and shows as 0.1.
    A lookup of 609 seconds is 0.15 minutes late; the float difference is
    below 0.15 and shows as 0.1 too. *)
Lemma float_difference_shows_0_1 :
  forall secs, secs = 603 \/ secs = 609 ->
  exists rows c',
    predict_route_times unit (steady (JInt secs)) id
      ["A"; "B"] ["07:00"; "07:10"] (Examples.fresh tt) = inr (rows, c') /\
    shown rows = [(Num (Binary64.Fin 0), "07:00"); (Num tenth, "07:10")].
Proof.
  intros secs [-> | ->]; eexists _, _; split; vm_compute; reflexivity.
Qed.

(** A duration that is not a number, or is infinite, is answered as it is
    and makes the call raise; a duration of minus infinity lets the bus
    wait for its scheduled time; an integer too large for a float counts
    as no answer. *)
Lemma durations_that_are_not_finite :
  predict_route_times unit (steady (JFloat Binary64.NaN)) id
    ["A"; "B"] ["07:00"; "07:10"] (Examples.fresh tt) = inl ValueError /\
  predict_route_times unit (steady (JFloat (Binary64.Inf false))) id
    ["A"; "B"] ["07:00"; "07:10"] (Examples.fresh tt) = inl ValueError /\
  (exists rows c',
     predict_route_times unit (steady (JFloat (Binary64.Inf true))) id
       ["A"; "B"] ["07:00"; "07:10"] (Examples.fresh tt) = inr (rows, c') /\
     shown rows = [(Num (Binary64.Fin 0), "07:00"); (Num (Binary64.Fin 0), "07:10")]) /\
  (exists rows c',
     predict_route_times unit (steady (JInt (10 ^ 400))) id
       ["A"; "B"] ["07:00"; "07:10"] (Examples.fresh tt) = inr (rows, c') /\
     shown rows = [(Num (Binary64.Fin 0), "07:00")]).
Proof.
  split; [vm_compute; reflexivity |]. split; [vm_compute; reflexivity |].
  split; eexists _, _; split; vm_compute; reflexivity.
Qed.

End Checks64.

(** ** The further properties on concrete inputs *)

Module ExtraChecks.
Import Timetable ExtractStops Shapes Examples MoreExamples.

Lemma X1_witness :
  (0 <= hour quarter_to_eight <= 23 /\ 0 <= minute quarter_to_eight <= 59 /\
   0 <= time_to_minutes quarter_to_eight < 1440) /\
  (time_to_minutes quarter_to_eight = time_to_minutes quarter_to_eight ->
   quarter_to_eight = quarter_to_eight).
Proof.
  apply (ClockExtras.X1_parsed_time_within_day "07:45" "7:45"); reflexivity.
Defined.

(** The unpadded ["7:45"] renders as ["07:45"], which parses to the same
    time. *)
Lemma X2_witness :
  parse_time (minutes_to_time_str (inject_Z (time_to_minutes quarter_to_eight)))
  = inr quarter_to_eight.
Proof. apply (ClockExtras.X2_render_parses_back "7:45"). reflexivity. Defined.

Lemma X3_witness :
  minutes_to_time_str (inject_Z (time_to_minutes quarter_to_eight)) = "07:45".
Proof.
  apply (ClockExtras.X3_padded_string_round_trip "07:45"); reflexivity.
Defined.


Lemma X7_witness :
  ["A"; "B"; "C"] <> [] /\
  (length ["A"; "B"; "C"] <= length ["07:00"; "07:15"; "x"])%nat /\
  exists t0 tobj,
    ["07:00"; "07:15"; "x"] !! 0%nat = Some t0 /\ t0 <> "x" /\
    parse_time t0 = inr tobj.
Proof.
  apply (RunExtras.X7_returns_only_on_shaped_input unit no_route id
           ["A"; "B"; "C"] ["07:00"; "07:15"; "x"] (fresh tt)
           [anchor_A; dash_row "C"] {| world := tt; requests := [("A", "B")] |}).
  reflexivity.
Defined.

Lemma X8_witness :
  predict_route_times unit no_route id [] ["07:00"] (fresh tt) = inl IndexError.
Proof.
  apply (proj1 (RunExtras.X8_degenerate_inputs unit no_route id
                  [] ["07:00"] (fresh tt))).
  reflexivity.
Defined.

Lemma X9_witness :
  predict_route_times unit (steady 900) id
    ["A"; "B"] (["07:00"; "x"] ++ ["not a time"]) (fresh tt)
  = predict_route_times unit (steady 900) id ["A"; "B"] ["07:00"; "x"] (fresh tt).
Proof.
  apply (RunExtras.X9_surplus_timetable_ignored unit (steady 900) id
           ["A"; "B"] ["07:00"; "x"] ["not a time"] (fresh tt)).
  cbn. lia.
Defined.

Lemma X10_witness :
  (1 <= length [anchor_A; dash_row "C"] <= length ["A"; "B"; "C"])%nat.
Proof.
  apply (RunExtras.X10_row_count_bounds unit no_route id
           ["A"; "B"; "C"] ["07:00"; "07:15"; "x"] (fresh tt)
           [anchor_A; dash_row "C"] {| world := tt; requests := [("A", "B")] |}).
  reflexivity.
Defined.

Lemma X11_witness :
  exists new,
    requests {| world := tt; requests := [("A", "B")] |}
    = requests (fresh tt) ++ new /\
    Forall (fun od =>
              exists i j, (i < j < length ["A"; "B"; "C"])%nat /\
                served_stop ["A"; "B"; "C"] ["07:00"; "07:15"; "x"] i
                = Some (fst od) /\
                served_stop ["A"; "B"; "C"] ["07:00"; "07:15"; "x"] j
                = Some (snd od)) new.
Proof.
  apply (RunExtras.X11_requests_follow_the_route unit no_route id
           ["A"; "B"; "C"] ["07:00"; "07:15"; "x"] (fresh tt)
           [anchor_A; dash_row "C"] {| world := tt; requests := [("A", "B")] |}).
  reflexivity.
Defined.


Lemma X13_witness :
  extract_stops_from_xml sections_by_id nameless_document "X90" "outbound"
  = inl AttributeError.
Proof.
  apply (ExtractExtras.X13_incomplete_stop_point_raises sections_by_id
           nameless_document "X90" "outbound").
  apply Exists_cons_hd. intros [_ [cn H]]. discriminate H.
Defined.

Lemma X14_witness : name gloucester_green = text (leaf "CommonName" "Gloucester Green").
Proof.
  apply (ExtractExtras.X14_last_declaration_names_the_stop sections_by_id
           renamed_document "X90" "outbound" stops_S1_S2 gloucester_green
           [stop_point "S1" "Coach Station"; stop_point "S2" "Thornhill"]
           (stop_point "S1" "Gloucester Green") []
           (leaf "StopPointRef" "S1") (leaf "CommonName" "Gloucester Green")).
  - vm_compute. reflexivity.
  - left.
  - reflexivity.
  - reflexivity.
  - reflexivity.
  - reflexivity.
  - constructor.
Defined.

Lemma X15_witness :
  NoDup (atco_code <$> stops_S1_S2) /\
  (length stops_S1_S2
   <= length (findall_below "AnnotatedStopPointRef" document))%nat.
Proof.
  apply (ExtractExtras.X15_codes_unique_and_bounded sections_by_id
           document "X90" "outbound" stops_S1_S2).
  vm_compute. reflexivity.
Defined.

Lemma complete_document :
  Forall complete (findall_below "AnnotatedStopPointRef" document).
Proof.
  repeat (apply Forall_cons; split; [split; eexists; reflexivity |]).
  apply Forall_nil. reflexivity.
Defined.

(** The capitalised ["Outbound"] is not one of the two directions. *)
Lemma X16_witness :
  extract_stops_from_xml sections_by_id document "X90" "Outbound" = inr [].
Proof.
  apply (ExtractExtras.X16_no_match_gives_empty_list sections_by_id
           document "X90" "Outbound").
  - exact complete_document.
  - left. split; discriminate.
Defined.

Lemma X17_witness :
  direction_match "inbound" (Some ("London - " +:+ "OXFORD" +:+ " express"))
  = inr true.
Proof.
  apply (proj1 (ExtractExtras.X17_direction_words "London - " "OXFORD" " express")).
  right. reflexivity.
Defined.

End ExtraChecks.

Module ExtraChecks64.
Import Timetable Timetable64 Examples64.

(** X6 on the route A 07:00, B unserved, C 07:15 with a service that
    answers a duration that is not a number. *)
Lemma X6_witness :
  (exists rows c',
      predict_route_times unit (steady (JFloat Binary64.NaN)) id
        ["A"; "B"; "C"] ["07:00"; "x"; "07:15"] (Examples.fresh tt)
      = inr (rows, c')) \/
  (exists n st s t tobj tm c',
      (S n < length ["A"; "B"; "C"])%nat /\
      run_upto unit (steady (JFloat Binary64.NaN)) id
        ["A"; "B"; "C"] ["07:00"; "x"; "07:15"] (Examples.fresh tt) n = inr st /\
      ["A"; "B"; "C"] !! S n = Some s /\
      ["07:00"; "x"; "07:15"] !! S n = Some t /\ t <> "x" /\
      parse_time t = inr tobj /\
      get_travel_time unit (steady (JFloat Binary64.NaN))
        (gmaps st) (last_used_stop st) s = (Some tm, c') /\
      let arrival :=
        Binary64.max (Binary64.add (last_used_time st) tm)
          (Binary64.Fin (inject_Z (time_to_minutes tobj))) in
      (arrival = Binary64.NaN \/ arrival = Binary64.Inf false) /\
      minutes_to_time_str arrival = inl ValueError /\
      predict_route_times unit (steady (JFloat Binary64.NaN)) id
        ["A"; "B"; "C"] ["07:00"; "x"; "07:15"] (Examples.fresh tt)
      = inl ValueError).
Proof.
  apply (FloatExtras.X6_raises_only_on_non_finite_arrival
           unit (steady (JFloat Binary64.NaN)) id
           ["A"; "B"; "C"] ["07:00"; "x"; "07:15"] (Examples.fresh tt)).
  exact Checks.input_ok_A_B_C.
Defined.

End ExtraChecks64.
